(** * Session manager of the AI2Thor dataset viewer quiz

    A shallow embedding of [session_manager.py]: the session dictionary,
    the two answer recorders, bookmark toggling, the two navigation
    searches, the loaders of the live and the archived sessions, the
    archiving, the listing and the deletion, with the two callers in
    [viewer.py] that decide what is recorded and shown for a row;
    followed by the properties of the written specification that concern
    them and by further properties of the module. *)

From Stdlib Require Import ZArith Lia Ascii String DecimalString DecimalZ.
From stdpp Require Import base option list gmap strings fin_maps sorting.

Local Open Scope string_scope.
Local Open Scope list_scope.
Local Open Scope Z_scope.

(** ** Exceptions and results *)

(** The exception classes that the modelled code can meet.  [OSError] is
    the class that the name [IOError] denotes. *)
Inductive exn : Type :=
  | KeyError (key : string)
  | ValueError
  | JSONDecodeError
  | UnicodeDecodeError
  | OSError.

Inductive result (A : Type) : Type :=
  | Ok (a : A)
  | Raise (e : exn).
Arguments Ok {A} a.
Arguments Raise {A} e.

Definition result_bind {A B} (m : result A) (k : A → result B) : result B :=
  match m with
  | Ok a => k a
  | Raise e => Raise e
  end.

(** ** The data model *)

(** One entry of [session["answers"]].  The recorders write all six keys;
    [is_correct] is read back with [a.get("is_correct")], so its absence
    (an entry written by other means) is part of the model. *)
Record AnswerRecord : Type := mkAnswer {
  a_question : string;
  a_user_answer : string;
  a_correct_answer : string;
  a_is_correct : option bool;
  a_query_object : string;
  a_timestamp : string
}.

(** Truth value of [a.get("is_correct")]: a missing key gives [None],
    which is false. *)
Definition get_is_correct (a : AnswerRecord) : bool :=
  match a_is_correct a with
  | Some b => b
  | None => false
  end.

(** The session dictionary, seen as a record of its known keys: field
    [s_k] is [Some v] when [session["k"]] is [v], and [None] when the key
    is missing.  The answers are a dictionary from [str(row_idx)] to the
    entry of that row. *)
Record Session : Type := mkSession {
  s_id : option string;
  s_created_at : option string;
  s_updated_at : option string;
  s_dataset : option string;
  s_split_subset : option string;
  s_total_questions : option Z;
  s_answered_count : option Z;
  s_correct_count : option Z;
  s_incorrect_count : option Z;
  s_answers : option (gmap string AnswerRecord);
  s_bookmarks : option (list Z);
  s_current_row : option Z
}.

Definition set_updated_at (v : string) (s : Session) : Session :=
  mkSession (s_id s) (s_created_at s) (Some v) (s_dataset s)
    (s_split_subset s) (s_total_questions s) (s_answered_count s)
    (s_correct_count s) (s_incorrect_count s) (s_answers s) (s_bookmarks s)
    (s_current_row s).

Definition set_answered_count (v : Z) (s : Session) : Session :=
  mkSession (s_id s) (s_created_at s) (s_updated_at s) (s_dataset s)
    (s_split_subset s) (s_total_questions s) (Some v)
    (s_correct_count s) (s_incorrect_count s) (s_answers s) (s_bookmarks s)
    (s_current_row s).

Definition set_correct_count (v : Z) (s : Session) : Session :=
  mkSession (s_id s) (s_created_at s) (s_updated_at s) (s_dataset s)
    (s_split_subset s) (s_total_questions s) (s_answered_count s)
    (Some v) (s_incorrect_count s) (s_answers s) (s_bookmarks s)
    (s_current_row s).

Definition set_incorrect_count (v : Z) (s : Session) : Session :=
  mkSession (s_id s) (s_created_at s) (s_updated_at s) (s_dataset s)
    (s_split_subset s) (s_total_questions s) (s_answered_count s)
    (s_correct_count s) (Some v) (s_answers s) (s_bookmarks s)
    (s_current_row s).

Definition set_answers (v : gmap string AnswerRecord) (s : Session) : Session :=
  mkSession (s_id s) (s_created_at s) (s_updated_at s) (s_dataset s)
    (s_split_subset s) (s_total_questions s) (s_answered_count s)
    (s_correct_count s) (s_incorrect_count s) (Some v) (s_bookmarks s)
    (s_current_row s).

Definition set_bookmarks (v : list Z) (s : Session) : Session :=
  mkSession (s_id s) (s_created_at s) (s_updated_at s) (s_dataset s)
    (s_split_subset s) (s_total_questions s) (s_answered_count s)
    (s_correct_count s) (s_incorrect_count s) (s_answers s) (Some v)
    (s_current_row s).

(** [str(row_idx)]: the decimal numeral of an integer, with a leading
    minus sign for a negative one. *)
Definition str (z : Z) : string := NilZero.string_of_int (Z.to_int z).

(** ** The world: clock and sessions directory *)

(** A reading of [datetime.now()], by the two renderings the code takes of
    it: [strftime("%Y%m%d_%H%M%S")] and [isoformat()]. *)
Record datetime : Type := mkDatetime {
  strftime_id : string;
  isoformat : string
}.

(** The state outside the session value: the clock, as the sequence of its
    future readings and the number of readings taken so far, and the
    directory [./sessions], as the list of its files (name, bytes) in the
    order in which the file system enumerates them.  A directory that does
    not exist yet is the empty list. *)
Record World : Type := mkWorld {
  w_clock : nat → datetime;
  w_tick : nat;
  w_dir : list (string * string)
}.

(** Computations that read and change the world and may raise.  A
    computation that raises gives no state: what the code changed before
    the exception is not observed by any of the properties below. *)
Definition M (A : Type) : Type := World → result (A * World).

Definition ret {A} (a : A) : M A := λ w, Ok (a, w).

Definition throw {A} (e : exn) : M A := λ _, Raise e.

Definition bind {A B} (m : M A) (k : A → M B) : M B :=
  λ w, match m w with
       | Ok (a, w') => k a w'
       | Raise e => Raise e
       end.

Notation "'let*' x ':=' m 'in' k" := (bind m (λ x, k))
  (at level 10, x name, m at level 100, k at level 200,
   format "'[v' 'let*'  x  ':='  m  'in' '/' k ']'").

Definition datetime_now : M datetime :=
  λ w, Ok (w_clock w (w_tick w), mkWorld (w_clock w) (S (w_tick w)) (w_dir w)).

Definition CURRENT_SESSION_FILE : string := "current_session.json".

Fixpoint dir_read (name : string) (dir : list (string * string)) : option string :=
  match dir with
  | [] => None
  | (n, data) :: rest => if decide (n = name) then Some data else dir_read name rest
  end.

(** Opening a file for writing replaces the bytes of an existing file and
    creates a missing one. *)
Fixpoint dir_write (name data : string) (dir : list (string * string))
    : list (string * string) :=
  match dir with
  | [] => [(name, data)]
  | (n, old) :: rest =>
      if decide (n = name) then (n, data) :: rest
      else (n, old) :: dir_write name data rest
  end.

Definition write_file (name data : string) : M unit :=
  λ w, Ok (tt, mkWorld (w_clock w) (w_tick w) (dir_write name data (w_dir w))).

Definition ensure_sessions_dir : M unit := ret tt.

(** ** The operations of [session_manager.py] *)

Section Operations.

(** The two functions of the [json] library that the module calls, on the
    text of a file: [json_dumps s] is the text that [json.dump(s, f,
    indent=2)] writes, and [json_loads t] is the value that [json.load]
    builds from the text [t], or [None] when it raises [JSONDecodeError]. *)
Context (json_dumps : Session → string) (json_loads : string → option Session).

Definition create_empty_session (dataset split_subset : string) : M Session :=
  let* t_id := datetime_now in
  let* t_created := datetime_now in
  let* t_updated := datetime_now in
  ret {| s_id := Some (strftime_id t_id);
         s_created_at := Some (isoformat t_created);
         s_updated_at := Some (isoformat t_updated);
         s_dataset := Some dataset;
         s_split_subset := Some split_subset;
         s_total_questions := Some 0;
         s_answered_count := Some 0;
         s_correct_count := Some 0;
         s_incorrect_count := Some 0;
         s_answers := Some ∅;
         s_bookmarks := Some [];
         s_current_row := Some 0 |}.

(** The function changes its argument in place and returns nothing; the
    model returns the changed session. *)
Definition save_current_session (session : Session) : M Session :=
  let* _ := ensure_sessions_dir in
  let* now := datetime_now in
  let session := set_updated_at (isoformat now) session in
  let* _ := write_file CURRENT_SESSION_FILE (json_dumps session) in
  ret session.

(** [session[key]] for a key that may be missing. *)
Definition getitem {A} (key : string) (field : option A) : M A :=
  match field with
  | Some v => ret v
  | None => throw (KeyError key)
  end.

Definition new_record (question user_answer correct_answer : string)
    (is_correct : bool) (query_object : string) (now : datetime) : AnswerRecord :=
  {| a_question := question;
     a_user_answer := user_answer;
     a_correct_answer := correct_answer;
     a_is_correct := Some is_correct;
     a_query_object := query_object;
     a_timestamp := isoformat now |}.

(** [len(d)] of a dictionary. *)
Definition len (d : gmap string AnswerRecord) : Z := Z.of_nat (size d).

Definition record_answer (session : Session) (row_idx : Z)
    (question user_answer correct_answer : string) (is_correct : bool)
    (query_object : string) : M Session :=
  let row_key := str row_idx in
  let* answers := getitem "answers" (s_answers session) in
  if decide (row_key ∉ dom answers) then
    let* now := datetime_now in
    let answers :=
      <[row_key := new_record question user_answer correct_answer
                     is_correct query_object now]> answers in
    let session := set_answers answers session in
    let session := set_answered_count (len answers) session in
    let* session :=
      if is_correct then
        let* c := getitem "correct_count" (s_correct_count session) in
        ret (set_correct_count (c + 1) session)
      else
        let* c := getitem "incorrect_count" (s_incorrect_count session) in
        ret (set_incorrect_count (c + 1) session) in
    save_current_session session
  else ret session.

(** [sum(1 for a in answers.values() if p(a))]. *)
Definition count_values (p : AnswerRecord → bool) (answers : gmap string AnswerRecord) : Z :=
  Z.of_nat (length (filter (λ kv, p kv.2 = true) (map_to_list answers))).

(** [session.get(key, default)]. *)
Definition get_default {A} (field : option A) (d : A) : A := default d field.

Definition record_answer_allow_change (session : Session) (row_idx : Z)
    (question user_answer correct_answer : string) (is_correct : bool)
    (query_object : string) (was_answered previous_correct : bool) : M Session :=
  let row_key := str row_idx in
  let session :=
    match s_answers session with
    | None => set_answers ∅ session
    | Some _ => session
    end in
  let session :=
    match s_answered_count session with
    | None => set_answered_count (len (get_default (s_answers session) ∅)) session
    | Some _ => session
    end in
  let session :=
    match s_correct_count session with
    | None =>
        set_correct_count
          (count_values get_is_correct (get_default (s_answers session) ∅)) session
    | Some _ => session
    end in
  let session :=
    match s_incorrect_count session with
    | None =>
        set_incorrect_count
          (count_values (λ a, negb (get_is_correct a))
             (get_default (s_answers session) ∅)) session
    | Some _ => session
    end in
  let session :=
    if was_answered then
      if previous_correct then
        set_correct_count
          (Z.max 0 (get_default (s_correct_count session) 0 - 1)) session
      else
        set_incorrect_count
          (Z.max 0 (get_default (s_incorrect_count session) 0 - 1)) session
    else session in
  let* answers := getitem "answers" (s_answers session) in
  let* now := datetime_now in
  let answers :=
    <[row_key := new_record question user_answer correct_answer
                   is_correct query_object now]> answers in
  let session := set_answers answers session in
  let session := set_answered_count (len answers) session in
  let session :=
    if is_correct then
      set_correct_count (get_default (s_correct_count session) 0 + 1) session
    else
      set_incorrect_count (get_default (s_incorrect_count session) 0 + 1) session in
  save_current_session session.

(** [l.remove(x)]: drops the first element equal to [x].  The code calls it
    only after [x in l], so the [ValueError] of a missing element cannot
    occur there. *)
Fixpoint list_remove (x : Z) (l : list Z) : list Z :=
  match l with
  | [] => []
  | y :: l' => if decide (y = x) then l' else y :: list_remove x l'
  end.

Definition toggle_bookmark (session : Session) (row_idx : Z) : M Session :=
  let* bookmarks := getitem "bookmarks" (s_bookmarks session) in
  let session :=
    if decide (row_idx ∈ bookmarks) then
      set_bookmarks (list_remove row_idx bookmarks) session
    else
      set_bookmarks (bookmarks ++ [row_idx]) session in
  save_current_session session.

End Operations.

(** ** Navigation *)

Definition is_row_answered (session : Session) (row_idx : Z) : result bool :=
  match s_answers session with
  | Some answers => Ok (bool_decide (str row_idx ∈ dom answers))
  | None => Raise (KeyError "answers")
  end.

Definition is_row_bookmarked (session : Session) (row_idx : Z) : result bool :=
  match s_bookmarks session with
  | Some bookmarks => Ok (bool_decide (row_idx ∈ bookmarks))
  | None => Raise (KeyError "bookmarks")
  end.

(** The [while checked < total_rows] loop, by the number of iterations
    that remain: [checked] starts at 0 and grows by one per iteration, so
    the body runs at most [total_rows] times, and not at all when
    [total_rows <= 0].  [mod] is the floored remainder, as [%] is. *)
Fixpoint unanswered_loop (session : Session) (current_idx total_rows direction : Z)
    (remaining : nat) (idx : Z) : result Z :=
  match remaining with
  | O => Ok current_idx
  | S remaining' =>
      let idx := (idx + direction) mod total_rows in
      match is_row_answered session idx with
      | Raise e => Raise e
      | Ok false => Ok idx
      | Ok true =>
          unanswered_loop session current_idx total_rows direction remaining' idx
      end
  end.

Definition get_next_unanswered_row (session : Session)
    (current_idx total_rows direction : Z) : result Z :=
  unanswered_loop session current_idx total_rows direction
    (Z.to_nat total_rows) current_idx.

(** *** [int(k)] on the keys of the answers *)

(** The white space that [int] strips, among the ASCII characters: tab to
    carriage return, the four separators 28 to 31, and the space. *)
Definition is_space (a : ascii) : bool :=
  let n := nat_of_ascii a in
  ((9 <=? n) && (n <=? 13) || (28 <=? n) && (n <=? 32))%nat.

Definition is_digit (a : ascii) : bool :=
  let n := nat_of_ascii a in ((48 <=? n) && (n <=? 57))%nat.

Fixpoint lstrip (s : string) : string :=
  match s with
  | EmptyString => EmptyString
  | String a s' => if is_space a then lstrip s' else s
  end.

Fixpoint rstrip (s : string) : string :=
  match s with
  | EmptyString => EmptyString
  | String a s' =>
      match rstrip s' with
      | EmptyString => if is_space a then EmptyString else String a EmptyString
      | r => String a r
      end
  end.

(** The digits of a numeral in which single underscores may separate
    digits: [after_digit] tells whether the previous character was a
    digit.  A numeral neither starts nor ends with an underscore, has no
    two in a row, and is not empty. *)
Fixpoint scan_digits (after_digit : bool) (s : string) : option string :=
  match s with
  | EmptyString => if after_digit then Some EmptyString else None
  | String a s' =>
      if is_digit a then String a <$> scan_digits true s'
      else if decide (a = "_"%char) then
        if after_digit then
          match s' with
          | EmptyString => None
          | _ => scan_digits false s'
          end
        else None
      else None
  end.

Definition py_uint (s : string) : option Z :=
  digits ← scan_digits false s;
  d ← NilEmpty.uint_of_string digits;
  Some (Z.of_uint d).

(** [int(s)] for a string of ASCII characters: [None] stands for
    [ValueError].  Digits and spaces outside ASCII, which [int] also
    accepts, and the interpreter's limit on the length of a numeral are
    not modelled: such keys are read as rejected. *)
Definition py_int (s : string) : option Z :=
  match rstrip (lstrip s) with
  | EmptyString => None
  | String a r =>
      if decide (a = "-"%char) then Z.opp <$> py_uint r
      else if decide (a = "+"%char) then py_uint r
      else py_uint (String a r)
  end.

Fixpoint int_keys (keys : list string) : result (list Z) :=
  match keys with
  | [] => Ok []
  | k :: keys' =>
      match py_int k with
      | None => Raise ValueError
      | Some i => result_bind (int_keys keys') (λ l, Ok (i :: l))
      end
  end.

(** [sorted] on integers. *)
Definition sorted (l : list Z) : list Z := merge_sort Z.le l.

Definition get_answered_rows (session : option Session) : result (list Z) :=
  match session with
  | None => Ok []
  | Some session =>
      match s_answers session with
      | None => Ok []
      | Some answers =>
          result_bind (int_keys (map_to_list answers).*1) (λ l, Ok (sorted l))
      end
  end.

(** [for idx in l: if p(idx): return idx]. *)
Fixpoint first_such (p : Z → bool) (l : list Z) : option Z :=
  match l with
  | [] => None
  | idx :: l' => if p idx then Some idx else first_such p l'
  end.

Definition get_next_answered_row (session : option Session)
    (current_idx direction : Z) : result (option Z) :=
  result_bind (get_answered_rows session) (λ answered,
    match answered with
    | [] => Ok None
    | first :: _ =>
        if decide (direction = 1) then
          match first_such (λ idx, Z.ltb current_idx idx) answered with
          | Some idx => Ok (Some idx)
          | None => Ok (Some first)
          end
        else
          match first_such (λ idx, Z.ltb idx current_idx) (reverse answered) with
          | Some idx => Ok (Some idx)
          | None => Ok (last answered)
          end
    end).

(** ** Reading the session files *)

(** *** Text files *)

Definition in_range (lo hi : nat) (a : ascii) : bool :=
  let n := nat_of_ascii a in ((lo <=? n) && (n <=? hi))%nat.

(** For the first byte of a UTF-8 sequence: the number of bytes that
    follow it and the range of the first of them; [None] for a byte that
    starts no sequence. *)
Definition utf8_lead (a : ascii) : option (nat * (nat * nat)) :=
  if in_range 0 127 a then Some (0, (0, 0))%nat
  else if in_range 194 223 a then Some (1, (128, 191))%nat
  else if in_range 224 224 a then Some (2, (160, 191))%nat
  else if in_range 225 236 a then Some (2, (128, 191))%nat
  else if in_range 237 237 a then Some (2, (128, 159))%nat
  else if in_range 238 239 a then Some (2, (128, 191))%nat
  else if in_range 240 240 a then Some (3, (144, 191))%nat
  else if in_range 241 243 a then Some (3, (128, 191))%nat
  else if in_range 244 244 a then Some (3, (128, 143))%nat
  else None.

(** Whether a byte string is well-formed UTF-8, which is what the strict
    decoder of a file opened in text mode accepts. *)
Fixpoint utf8_valid (bytes : string) : bool :=
  match bytes with
  | EmptyString => true
  | String b0 s1 =>
      match utf8_lead b0 with
      | None => false
      | Some (O, _) => utf8_valid s1
      | Some (1%nat, (lo, hi)) =>
          match s1 with
          | String b1 s2 => in_range lo hi b1 && utf8_valid s2
          | _ => false
          end
      | Some (2%nat, (lo, hi)) =>
          match s1 with
          | String b1 (String b2 s3) =>
              in_range lo hi b1 && in_range 128 191 b2 && utf8_valid s3
          | _ => false
          end
      | Some (_, (lo, hi)) =>
          match s1 with
          | String b1 (String b2 (String b3 s4)) =>
              in_range lo hi b1 && in_range 128 191 b2 && in_range 128 191 b3
              && utf8_valid s4
          | _ => false
          end
      end
  end.

(** [f.read()] on a file opened with [open(path, "r")]: the bytes are
    decoded with the default encoding, UTF-8, and a byte sequence that is
    not UTF-8 raises [UnicodeDecodeError].  A text is represented by its
    UTF-8 bytes. *)
Definition read_text (bytes : string) : result string :=
  if utf8_valid bytes then Ok bytes else Raise UnicodeDecodeError.

(** [path.exists()]. *)
Definition file_exists (name : string) : M bool :=
  λ w, Ok (match dir_read name (w_dir w) with
            | Some _ => true
            | None => false
            end, w).

(** [try: body except (json.JSONDecodeError, IOError): handler]. *)
Definition handled (e : exn) : bool :=
  match e with
  | JSONDecodeError | OSError => true
  | _ => false
  end.

Definition try_except {A} (body handler : M A) : M A :=
  λ w, match body w with
       | Ok r => Ok r
       | Raise e => if handled e then handler w else Raise e
       end.

(** *** File names *)

Fixpoint starts_with (p s : string) : bool :=
  match p, s with
  | EmptyString, _ => true
  | String a p', String b s' => bool_decide (a = b) && starts_with p' s'
  | String _ _, EmptyString => false
  end.

Fixpoint ends_with (suffix s : string) : bool :=
  bool_decide (s = suffix)
  || match s with
     | EmptyString => false
     | String _ s' => ends_with suffix s'
     end.

(** [q in s] on strings. *)
Fixpoint is_substring (q s : string) : bool :=
  starts_with q s
  || match s with
     | EmptyString => false
     | String _ s' => is_substring q s'
     end.

Fixpoint drop_prefix (p s : string) : string :=
  match p, s with
  | String _ p', String _ s' => drop_prefix p' s'
  | _, _ => s
  end.

(** Whether a file name matches the pattern [session_*.json]. *)
Definition glob_session (name : string) : bool :=
  starts_with "session_" name && ends_with ".json" (drop_prefix "session_" name).

(** [s.rfind(c)]. *)
Fixpoint rfind (c : ascii) (s : string) : option nat :=
  match s with
  | EmptyString => None
  | String a s' =>
      match rfind c s' with
      | Some i => Some (S i)
      | None => if decide (a = c) then Some O else None
      end
  end.

(** [fp.stem]: the file name without its last suffix, where a suffix
    starts at the last dot unless that dot opens or closes the name. *)
Definition stem (name : string) : string :=
  match rfind "." name with
  | Some i =>
      if ((0 <? i) && (i <? String.length name - 1))%nat
      then substring 0 i name else name
  | None => name
  end.

Section Loading.

Context (json_loads : string → option Session).

(** [with open(name, "r") as f: return json.load(f)]. *)
Definition json_load_file (name : string) : M Session :=
  λ w, match dir_read name (w_dir w) with
       | None => Raise OSError
       | Some bytes =>
           match read_text bytes with
           | Raise e => Raise e
           | Ok text =>
               match json_loads text with
               | Some v => Ok (v, w)
               | None => Raise JSONDecodeError
               end
           end
       end.

Definition load_current_session : M (option Session) :=
  let* _ := ensure_sessions_dir in
  let* present := file_exists CURRENT_SESSION_FILE in
  if present then
    try_except
      (let* v := json_load_file CURRENT_SESSION_FILE in ret (Some v))
      (ret None)
  else ret None.

(** [SESSIONS_DIR.glob("session_*.json")]: the matching names, in the
    order of the directory. *)
Definition glob_sessions : M (list string) :=
  λ w, Ok (filter (λ n, glob_session n = true) (w_dir w).*1, w).

(** The [for fp in ...] loop of the partial match. *)
Fixpoint partial_match (session_id : string) (fps : list string) : M (option Session) :=
  match fps with
  | [] => ret None
  | fp :: fps' =>
      if is_substring session_id (stem fp) then
        try_except
          (let* v := json_load_file fp in ret (Some v))
          (partial_match session_id fps')
      else partial_match session_id fps'
  end.

Definition load_session_by_id (session_id : string) : M (option Session) :=
  let* _ := ensure_sessions_dir in
  let filepath := "session_" +:+ session_id +:+ ".json" in
  let* present := file_exists filepath in
  if present then
    try_except
      (let* v := json_load_file filepath in ret (Some v))
      (ret None)
  else
    let* fps := glob_sessions in
    partial_match session_id fps.

End Loading.

(** ** The live file and the archives *)

(** [path.unlink()]: the name leaves the directory; a missing file is an
    error. *)
Definition dir_remove (name : string) (dir : list (string * string))
    : list (string * string) :=
  filter (λ e, e.1 ≠ name) dir.

Definition unlink (name : string) : M unit :=
  λ w, match dir_read name (w_dir w) with
       | None => Raise OSError
       | Some _ =>
           Ok (tt, mkWorld (w_clock w) (w_tick w) (dir_remove name (w_dir w)))
       end.

Definition delete_current_session : M unit :=
  let* present := file_exists CURRENT_SESSION_FILE in
  if present then unlink CURRENT_SESSION_FILE else ret tt.

(** A session dictionary that carries the key [archived_at], which
    [archive_session] adds to its argument. *)
Record ArchivedSession : Type := mkArchived {
  as_session : Session;
  as_archived_at : string
}.

(** Whether a character occurs in a string. *)
Fixpoint has_char (c : ascii) (s : string) : bool :=
  match s with
  | EmptyString => false
  | String a s' => bool_decide (a = c) || has_char c s'
  end.

(** [open(SESSIONS_DIR / name, "w")] followed by the write of [data], for
    a name that is computed from data.  A name with a null character is
    refused with [ValueError]; a name with a slash points into a
    subdirectory, and the directory [./sessions] has none, which is an
    [OSError]. *)
Definition write_named (name data : string) : M unit :=
  if has_char (ascii_of_nat 0) name then throw ValueError
  else if has_char "/" name then throw OSError
  else write_file name data.

Section Archiving.

(** [json.dump] on a session that carries [archived_at]. *)
Context (json_dumps_archived : ArchivedSession → string).

(** The function adds [archived_at] to its argument and returns the path
    of the file; the model returns the changed dictionary with the path. *)
Definition archive_session (session : Session) : M (ArchivedSession * string) :=
  let* _ := ensure_sessions_dir in
  let* now := datetime_now in
  let archived := mkArchived session (isoformat now) in
  let* id := getitem "id" (s_id session) in
  let filename := "session_" +:+ id +:+ ".json" in
  let* _ := write_named filename (json_dumps_archived archived) in
  ret (archived, "sessions/" +:+ filename).

End Archiving.

(** *** The list of the archives *)

(** One entry of the list that [list_archived_sessions] returns.  The
    keys [id], [dataset], [split_subset] and [created_at] hold what
    [data.get(key)] gives, which is [None] for a missing key; the counts
    default to 0, and [bookmarks] is the length of the list. *)
Record Summary : Type := mkSummary {
  sm_id : option string;
  sm_filepath : string;
  sm_dataset : option string;
  sm_split_subset : option string;
  sm_created_at : option string;
  sm_answered_count : Z;
  sm_correct_count : Z;
  sm_incorrect_count : Z;
  sm_bookmarks : Z
}.

Definition summarise (name : string) (data : Session) : Summary :=
  {| sm_id := s_id data;
     sm_filepath := "sessions/" +:+ name;
     sm_dataset := s_dataset data;
     sm_split_subset := s_split_subset data;
     sm_created_at := s_created_at data;
     sm_answered_count := get_default (s_answered_count data) 0;
     sm_correct_count := get_default (s_correct_count data) 0;
     sm_incorrect_count := get_default (s_incorrect_count data) 0;
     sm_bookmarks := Z.of_nat (length (get_default (s_bookmarks data) [])) |}.

(** What a call gives: a value, one of the exceptions above, or the
    [TypeError] of a comparison between values that have no order. *)
Inductive outcome (A : Type) : Type :=
  | Returned (a : A)
  | Raised (e : exn)
  | RaisedTypeError.
Arguments Returned {A} a.
Arguments Raised {A} e.
Arguments RaisedTypeError {A}.

(** The sort key [x.get("created_at", "")] of an entry that has a
    creation date.  The key [created_at] is always in the entry, so the
    default is never used: an entry made from a file without creation
    date has the key [None]. *)
Definition created_key (x : Summary) : string := default EmptyString (sm_created_at x).

(** [l.sort(key=..., reverse=True)] on entries whose keys are strings: the
    entries in descending order of their keys, entries with equal keys in
    the order in which they were. *)
Fixpoint insert_desc (x : Summary) (l : list Summary) : list Summary :=
  match l with
  | [] => [x]
  | y :: l' =>
      if decide (String.le (created_key y) (created_key x)) then x :: y :: l'
      else y :: insert_desc x l'
  end.

Definition sort_desc (l : list Summary) : list Summary := foldr insert_desc [] l.

(** The sort compares keys as soon as there are two entries, and [None]
    compares with nothing. *)
Definition sort_by_created_at (l : list Summary) : outcome (list Summary) :=
  match l with
  | [] | [_] => Returned l
  | _ =>
      if forallb (λ x, bool_decide (is_Some (sm_created_at x))) l
      then Returned (sort_desc l) else RaisedTypeError
  end.

Section Listing.

Context (json_loads : string → option Session).

(** The [for filepath in ...] loop, which gathers the entries. *)
Fixpoint collect_summaries (fps : list string) : M (list Summary) :=
  match fps with
  | [] => ret []
  | fp :: rest =>
      λ w, match json_load_file json_loads fp w with
           | Ok (data, w1) =>
               match collect_summaries rest w1 with
               | Ok (more, w2) => Ok (summarise fp data :: more, w2)
               | Raise e => Raise e
               end
           | Raise e => if handled e then collect_summaries rest w else Raise e
           end
  end.

Definition list_archived_sessions (w : World) : outcome (list Summary * World) :=
  match (let* _ := ensure_sessions_dir in
         let* fps := glob_sessions in
         collect_summaries fps) w with
  | Raise e => Raised e
  | Ok (sessions, w') =>
      match sort_by_created_at sessions with
      | Returned sorted_sessions => Returned (sorted_sessions, w')
      | Raised e => Raised e
      | RaisedTypeError => RaisedTypeError
      end
  end.

(** The entries of the archives of a directory whose files hold JSON, in
    the order of the directory. *)
Definition readable_archives (dir : list (string * string)) : list Summary :=
  omap (λ name,
          match dir_read name dir with
          | Some bytes =>
              if utf8_valid bytes then summarise name <$> json_loads bytes
              else None
          | None => None
          end)
       (filter (λ n, glob_session n = true) dir.*1).

End Listing.


(** Every archive of the directory holds UTF-8. *)
Definition archives_decodable (dir : list (string * string)) : Prop :=
  ∀ name bytes,
    glob_session name = true → dir_read name dir = Some bytes →
    utf8_valid bytes = true.

(** ** The callers in [viewer.py] *)

(** The flags that [check_answer_and_save] computes before it records:
    [was_answered = row_key in session.get("answers", {})], and
    [previous_correct] is [False] unless the row was answered, in which
    case it is [session["answers"][row_key].get("is_correct", False)]. *)
Definition check_answer_flags (session : Session) (row_idx : Z) : result (bool * bool) :=
  let row_key := str row_idx in
  let was_answered := bool_decide (row_key ∈ dom (get_default (s_answers session) ∅)) in
  if was_answered then
    match s_answers session with
    | None => Raise (KeyError "answers")
    | Some answers =>
        match answers !! row_key with
        | None => Raise (KeyError row_key)
        | Some a => Ok (was_answered, get_is_correct a)
        end
    end
  else Ok (was_answered, false).

(** The recording step of [check_answer_and_save]: the flags, then
    [record_answer_allow_change] with them. *)
Definition check_answer_record (json_dumps : Session → string)
    (session : Session) (row_idx : Z) (question user_letter correct_answer : string)
    (is_correct : bool) (query_object : string) : M Session :=
  λ w, match check_answer_flags session row_idx with
       | Raise e => Raise e
       | Ok (was_answered, previous_correct) =>
           record_answer_allow_change json_dumps session row_idx question
             user_letter correct_answer is_correct query_object
             was_answered previous_correct w
       end.

(** [" ".join(l)]. *)
Fixpoint join_space (l : list string) : string :=
  match l with
  | [] => EmptyString
  | [x] => x
  | x :: rest => x +:+ " " +:+ join_space rest
  end.

Definition CHECK_MARK : string := "✓".
Definition CROSS_MARK : string := "✗".
Definition BOOKMARK_MARK : string := "🔖".

Definition get_row_status_indicator (session : option Session) (row_idx : Z)
    : result string :=
  match session with
  | None => Ok EmptyString
  | Some session =>
      result_bind (is_row_answered session row_idx) (λ is_answered,
      result_bind
        (if is_answered then
           result_bind
             (match s_answers session with
              | Some answers => Ok answers
              | None => Raise (KeyError "answers")
              end) (λ answers,
             let is_correct :=
               match answers !! str row_idx with
               | Some a => get_is_correct a
               | None => false
               end in
             Ok (if is_correct then [CHECK_MARK] else [CROSS_MARK]))
         else Ok []) (λ indicators,
      result_bind (is_row_bookmarked session row_idx) (λ is_bookmarked,
        let indicators :=
          if is_bookmarked then indicators ++ [BOOKMARK_MARK] else indicators in
        Ok (join_space indicators))))
  end.

(** ** Predicates of the specification *)

Definition indicator (b : bool) : Z := if b then 1 else 0.

(** [answered_count == correct_count + incorrect_count == |answers|]. *)
Definition counts_agree (s : Session) : Prop :=
  ∃ answers n c i,
    s_answers s = Some answers ∧ s_answered_count s = Some n ∧
    s_correct_count s = Some c ∧ s_incorrect_count s = Some i ∧
    n = c + i ∧ c + i = len answers.

(** Each count is the number of entries it stands for. *)
Definition counts_exact (s : Session) : Prop :=
  ∃ answers,
    s_answers s = Some answers ∧
    s_answered_count s = Some (len answers) ∧
    s_correct_count s = Some (count_values get_is_correct answers) ∧
    s_incorrect_count s = Some (count_values (λ a, negb (get_is_correct a)) answers).

(** The two flags of [record_answer_allow_change] as the viewer computes
    them before the call: [was_answered] is [row_key in answers], and for
    an answered row [previous_correct] is the [is_correct] of its entry. *)
Definition flags_accurate (s : Session) (row_idx : Z)
    (was_answered previous_correct : bool) : Prop :=
  ∃ answers,
    s_answers s = Some answers ∧
    match answers !! str row_idx with
    | Some a => was_answered = true ∧ previous_correct = get_is_correct a
    | None => was_answered = false
    end.

Definition any_flags (s : Session) (row_idx : Z)
    (was_answered previous_correct : bool) : Prop := True.

(** The sessions that calls of the two recorders produce from a new
    session, where [flags_ok] tells which flags a call of
    [record_answer_allow_change] may be given.  The world of a call is
    arbitrary. *)
Inductive reachable (json_dumps : Session → string)
    (flags_ok : Session → Z → bool → bool → Prop) : Session → Prop :=
  | reach_create dataset split_subset w s w' :
      create_empty_session dataset split_subset w = Ok (s, w') →
      reachable json_dumps flags_ok s
  | reach_record s row_idx q ua ca ic qo w s' w' :
      reachable json_dumps flags_ok s →
      record_answer json_dumps s row_idx q ua ca ic qo w = Ok (s', w') →
      reachable json_dumps flags_ok s'
  | reach_change s row_idx q ua ca ic qo was prev w s' w' :
      reachable json_dumps flags_ok s →
      flags_ok s row_idx was prev →
      record_answer_allow_change json_dumps s row_idx q ua ca ic qo was prev w
        = Ok (s', w') →
      reachable json_dumps flags_ok s'.

(** The sessions that toggles of bookmarks produce from a new session. *)
Inductive toggled (json_dumps : Session → string) : Session → Prop :=
  | toggled_create dataset split_subset w s w' :
      create_empty_session dataset split_subset w = Ok (s, w') →
      toggled json_dumps s
  | toggled_toggle s row_idx w s' w' :
      toggled json_dumps s →
      toggle_bookmark json_dumps s row_idx w = Ok (s', w') →
      toggled json_dumps s'.


(** The counts after a call of [record_answer_allow_change] that starts
    from the counts [c] and [i]. *)
Definition adjusted_correct (c : Z) (was prev is_correct : bool) : Z :=
  let c := if was && prev then Z.max 0 (c - 1) else c in
  if is_correct then c + 1 else c.

Definition adjusted_incorrect (i : Z) (was prev is_correct : bool) : Z :=
  let i := if was && negb prev then Z.max 0 (i - 1) else i in
  if is_correct then i else i + 1.

(** The answered indices of a session: the integers that the keys of its
    answers denote.  No session and a session without answers have none. *)
Definition answered_index (session : option Session) (i : Z) : Prop :=
  ∃ s answers k,
    session = Some s ∧ s_answers s = Some answers ∧
    k ∈ dom answers ∧ py_int k = Some i.

(** Every key of the answers is a numeral, as the keys [str(row_idx)] that
    the recorders write are. *)
Definition numeral_keys (session : option Session) : Prop :=
  ∀ s answers k,
    session = Some s → s_answers s = Some answers →
    k ∈ dom answers → is_Some (py_int k).

(** The row has an entry in the answers. *)
Definition answered (answers : gmap string AnswerRecord) (i : Z) : Prop :=
  str i ∈ dom answers.

Global Instance answered_dec answers i : Decision (answered answers i).
Proof. unfold answered. apply _. Defined.

(** The index that the loop of [get_next_unanswered_row] looks at in its
    [k]-th iteration. *)
Definition visited (current_idx total_rows direction k : Z) : Z :=
  (current_idx + k * direction) mod total_rows.

(** A string of decimal digits. *)
Fixpoint all_digits (s : string) : bool :=
  match s with
  | EmptyString => true
  | String a s' => is_digit a && all_digits s'
  end.

(** Every key is [str(i)] for an integer [i]. *)
Definition canonical_keys (answers : gmap string AnswerRecord) : Prop :=
  ∀ k, k ∈ dom answers → ∃ i, k = str i.


(** The file of the archive with a given id. *)
Definition archive_file (id : string) : string := "session_" +:+ id +:+ ".json".


(** The file [name] of the directory holds a text that [json.load] reads
    as [v]; and it holds a text that [json.load] rejects. *)
Definition loads_to (json_loads : string → option Session)
    (dir : list (string * string)) (name : string) (v : Session) : Prop :=
  ∃ bytes, dir_read name dir = Some bytes ∧ utf8_valid bytes = true ∧
           json_loads bytes = Some v.

Definition not_json (json_loads : string → option Session)
    (dir : list (string * string)) (name : string) : Prop :=
  ∃ bytes, dir_read name dir = Some bytes ∧ utf8_valid bytes = true ∧
           json_loads bytes = None.

(** The answers and the three counts are there, [answered_count] is the
    number of entries and no count is negative. *)
Definition counts_bounded (s : Session) : Prop :=
  ∃ answers c i,
    s_answers s = Some answers ∧ s_answered_count s = Some (len answers) ∧
    s_correct_count s = Some c ∧ s_incorrect_count s = Some i ∧
    0 ≤ c ∧ 0 ≤ i.

(** The value of a computation, without the world it leaves. *)
Definition value_of {A} (r : result (A * World)) : result A :=
  match r with
  | Ok (a, _) => Ok a
  | Raise e => Raise e
  end.

(** ** Values for the examples *)

(** The dictionary [{}]. *)
Definition empty_dict : Session :=
  mkSession None None None None None None None None None None None None.

(** A parser for the examples: it reads the text [{}] as the empty
    dictionary, as [json.load] does, and rejects every other text.  The
    examples apply it to [{}] and to texts that are not JSON. *)
Definition json_loads_braces (text : string) : option Session :=
  if decide (text = "{}") then Some empty_dict else None.

Definition clock0 : nat → datetime :=
  λ _, mkDatetime "20260214_120040" "2026-02-14T12:00:40".

Definition world0 (dir : list (string * string)) : World := mkWorld clock0 0 dir.

Definition session_with (answers : gmap string AnswerRecord) (bookmarks : list Z) : Session :=
  mkSession (Some "20260214_120040") (Some "2026-02-14T12:00:40")
    (Some "2026-02-14T12:00:40") (Some "d") (Some "s") (Some 0)
    (Some (len answers)) (Some (count_values get_is_correct answers))
    (Some (count_values (λ a, negb (get_is_correct a)) answers))
    (Some answers) (Some bookmarks) (Some 0).

Definition answer_at (ok : bool) : AnswerRecord :=
  mkAnswer "q" "A" (if ok then "A" else "B") (Some ok) EmptyString "2026-02-14T12:00:40".


(** The answers in which the given rows have an entry. *)
Definition answers_rows (rows : list Z) : gmap string AnswerRecord :=
  list_to_map ((λ i, (str i, answer_at true)) <$> rows).

Definition session_rows (rows : list Z) : Session :=
  session_with (answers_rows rows) [].




Definition dir_undecodable : list (string * string) :=
  [(CURRENT_SESSION_FILE, String (ascii_of_nat 255) EmptyString)].

(** A serializer and a parser for the examples of round trips, which
    stand for a library that reads back the one session [v] of the
    example from the text that it writes for it. *)
Definition dumps_braces : Session → string := λ _, "{}".

Definition loads_as (v : Session) : string → option Session :=
  λ text, if decide (text = "{}") then Some v else None.

Definition dumps_archived_braces : ArchivedSession → string := λ _, "{}".

(** A directory that holds an archive of the session id of the examples. *)
Definition dir_archived : list (string * string) :=
  [("current_session.json", "{}");
   ("session_20260214_120040.json", "{ old")].

(** A parser for the examples that reads each text of a table as the
    session beside it and rejects the other texts. *)
Fixpoint loads_table (table : list (string * Session)) (text : string)
    : option Session :=
  match table with
  | [] => None
  | (t, v) :: rest => if decide (t = text) then Some v else loads_table rest text
  end.

Definition session_dated (created_at : option string) : Session :=
  mkSession (Some "x") created_at None None None None None None None None None None.

(** Two archives with creation dates, the older one first in the
    directory, after a file that is not JSON; and the same with an archive
    that has no creation date. *)
Definition dir_dated : list (string * string) :=
  [("session_broken.json", "{ broken");
   ("session_a.json", "{a}");
   ("session_b.json", "{b}")].

Definition table_dated : list (string * Session) :=
  [("{a}", session_dated (Some "2026-01-05T10:00:00"));
   ("{b}", session_dated (Some "2026-02-14T12:00:40"))].

Definition table_undated : list (string * Session) :=
  [("{a}", session_dated (Some "2026-01-05T10:00:00"));
   ("{b}", session_dated None)].

(** A serializer for the examples that writes the empty text; no example
    reads back a file that it wrote. *)
Definition no_text : Session → string := λ _, EmptyString.

Definition session_of (r : result (Session * World)) : Session :=
  match r with
  | Ok (s, _) => s
  | Raise _ => empty_dict
  end.

Definition world_of (r : result (Session * World)) : World :=
  match r with
  | Ok (_, w) => w
  | Raise _ => world0 []
  end.

(** Row 0 recorded as correct, row 1 as incorrect, then row 1 changed to
    correct, with the flags that describe the session at each call. *)
Definition run_created : result (Session * World) :=
  create_empty_session "d" "s" (world0 []).

Definition run_row0 : result (Session * World) :=
  record_answer no_text (session_of run_created) 0 "q0" "A" "A" true EmptyString
    (world_of run_created).

Definition run_row1 : result (Session * World) :=
  record_answer_allow_change no_text (session_of run_row0) 1 "q1" "B" "C"
    false EmptyString false false (world_of run_row0).

Definition run_row1_changed : result (Session * World) :=
  record_answer_allow_change no_text (session_of run_row1) 1 "q1" "C" "C"
    true EmptyString true false (world_of run_row1).

(** Row 0 recorded as correct twice, both times with [was_answered]
    false. *)
Definition run_once : result (Session * World) :=
  record_answer_allow_change no_text (session_of run_created) 0 "q0" "A" "A"
    true EmptyString false false (world_of run_created).

Definition run_twice : result (Session * World) :=
  record_answer_allow_change no_text (session_of run_once) 0 "q0" "A" "A"
    true EmptyString false false (world_of run_once).

(** * Properties *)

(** ** Counting the entries of the answers *)

Section Counting.

Implicit Types (answers : gmap string AnswerRecord) (p : AnswerRecord → bool).

Lemma count_values_empty p : count_values p ∅ = 0.
Proof. unfold count_values. by rewrite map_to_list_empty. Qed.

Lemma count_values_perm p answers (l : list (string * AnswerRecord)) :
  map_to_list answers ≡ₚ l →
  count_values p answers = Z.of_nat (length (filter (λ kv, p kv.2 = true) l)).
Proof. intros Hperm. unfold count_values. by rewrite Hperm. Qed.

Lemma count_values_insert_fresh p answers k a :
  answers !! k = None →
  count_values p (<[k := a]> answers) = indicator (p a) + count_values p answers.
Proof.
  intros Hfresh.
  rewrite (count_values_perm p _ _ (map_to_list_insert answers k a Hfresh)).
  rewrite filter_cons. unfold count_values, indicator. simpl.
  destruct (p a); case_decide; try done; simpl length; lia.
Qed.

Lemma count_values_delete p answers k b :
  answers !! k = Some b →
  count_values p answers = indicator (p b) + count_values p (delete k answers).
Proof.
  intros Hold.
  rewrite (count_values_perm p answers _ (symmetry (map_to_list_delete answers k b Hold))).
  rewrite filter_cons. unfold count_values, indicator. simpl.
  destruct (p b); case_decide; try done; simpl length; lia.
Qed.

Lemma count_values_insert_over p answers k a b :
  answers !! k = Some b →
  count_values p (<[k := a]> answers)
  = count_values p answers - indicator (p b) + indicator (p a).
Proof.
  intros Hold. rewrite <- insert_delete_eq.
  rewrite count_values_insert_fresh by apply lookup_delete_eq.
  rewrite (count_values_delete p answers k b Hold). lia.
Qed.

Lemma count_values_nonneg p answers : (0 ≤ count_values p answers)%Z.
Proof. unfold count_values. lia. Qed.

Lemma count_values_split p answers :
  count_values p answers + count_values (λ a, negb (p a)) answers = len answers.
Proof.
  induction answers as [|k a answers Hfresh _ IH] using map_first_key_ind.
  - rewrite !count_values_empty. unfold len. by rewrite map_size_empty.
  - rewrite !count_values_insert_fresh by done.
    unfold len in *. rewrite map_size_insert_None by done.
    unfold indicator. destruct (p a); simpl; lia.
Qed.

Lemma len_insert_fresh answers k a :
  answers !! k = None → len (<[k := a]> answers) = len answers + 1.
Proof. intros H. unfold len. rewrite map_size_insert_None by done. lia. Qed.

Lemma len_insert_over answers k a :
  is_Some (answers !! k) → len (<[k := a]> answers) = len answers.
Proof. intros H. unfold len. by rewrite map_size_insert_Some. Qed.

End Counting.

(** ** The answer recorders *)

Ltac run_ops :=
  unfold record_answer, record_answer_allow_change, toggle_bookmark,
    create_empty_session, save_current_session, write_file,
    ensure_sessions_dir, datetime_now, getitem, get_default, bind, ret,
    throw in *;
  simpl in *.

Section Recorders.

Context (json_dumps : Session → string).

Implicit Types (s : Session) (w : World) (answers : gmap string AnswerRecord).

Lemma create_empty_session_exact dataset split_subset w s w' :
  create_empty_session dataset split_subset w = Ok (s, w') → counts_exact s.
Proof.
  run_ops. intros [= <- <-]. exists ∅. simpl.
  rewrite !count_values_empty. unfold len. by rewrite map_size_empty.
Qed.

Lemma record_answer_present s answers row_idx q ua ca ic qo w :
  s_answers s = Some answers → str row_idx ∈ dom answers →
  record_answer json_dumps s row_idx q ua ca ic qo w = Ok (s, w).
Proof.
  intros Hans Hin. run_ops. rewrite Hans. simpl.
  case_decide; [contradiction | done].
Qed.

Lemma record_answer_marks s row_idx q ua ca ic qo w s' w' :
  record_answer json_dumps s row_idx q ua ca ic qo w = Ok (s', w') →
  ∃ answers', s_answers s' = Some answers' ∧ str row_idx ∈ dom answers'.
Proof.
  run_ops. destruct (s_answers s) as [answers|] eqn:Hans; simpl; [|done].
  case_decide as Hin.
  - destruct ic; simpl.
    + destruct (s_correct_count s); simpl; [|done].
      intros [= <- <-]. simpl. eexists. split; [done|]. set_solver.
    + destruct (s_incorrect_count s); simpl; [|done].
      intros [= <- <-]. simpl. eexists. split; [done|]. set_solver.
  - intros [= <- <-]. exists answers. split; [done|].
    destruct (decide (str row_idx ∈ dom answers)); [done | contradiction].
Qed.

Lemma record_answer_exact s row_idx q ua ca ic qo w s' w' :
  counts_exact s →
  record_answer json_dumps s row_idx q ua ca ic qo w = Ok (s', w') →
  counts_exact s'.
Proof.
  intros (answers & Hans & Hn & Hc & Hi). run_ops. rewrite Hans. simpl.
  case_decide as Hin; [|by intros [= <- <-]; exists answers].
  apply not_elem_of_dom in Hin.
  destruct ic; simpl; rewrite ?Hc, ?Hi; simpl; intros [= <- <-];
    eexists; simpl; (split; [done|]);
    rewrite !count_values_insert_fresh by done; simpl;
    repeat split; rewrite ?Hc, ?Hi; f_equal; unfold indicator; lia.
Qed.

Lemma record_answer_allow_change_exact s row_idx q ua ca ic qo was prev w s' w' :
  counts_exact s → flags_accurate s row_idx was prev →
  record_answer_allow_change json_dumps s row_idx q ua ca ic qo was prev w
    = Ok (s', w') →
  counts_exact s'.
Proof.
  intros (answers & Hans & Hn & Hc & Hi) (answers' & Hans' & Hflags).
  rewrite Hans in Hans'. injection Hans' as <-.
  run_ops. rewrite Hans, Hn, Hc, Hi. simpl.
  pose proof (count_values_nonneg get_is_correct answers) as Hc0.
  pose proof (count_values_nonneg (λ a, negb (get_is_correct a)) answers) as Hi0.
  destruct (answers !! str row_idx) as [old|] eqn:Hold.
  - destruct Hflags as [-> ->].
    pose proof (count_values_delete get_is_correct answers _ _ Hold) as Hdc.
    pose proof (count_values_delete (λ a, negb (get_is_correct a)) answers _ _ Hold) as Hdi.
    pose proof (count_values_nonneg get_is_correct (delete (str row_idx) answers)).
    pose proof (count_values_nonneg (λ a, negb (get_is_correct a))
                  (delete (str row_idx) answers)).
    destruct (get_is_correct old) eqn:Hoc, ic; simpl; rewrite ?Hans, ?Hc, ?Hi; simpl;
      intros [= <- <-]; eexists; simpl; (split; [done|]);
      rewrite !(count_values_insert_over _ _ _ _ _ Hold); simpl;
      unfold indicator in *; rewrite ?Hoc in *; simpl in *;
      repeat split; rewrite ?Hc, ?Hi; f_equal; lia.
  - subst was.
    destruct ic; simpl; rewrite ?Hans; simpl; intros [= <- <-];
      eexists; simpl; (split; [done|]);
      rewrite !count_values_insert_fresh by done; simpl;
      repeat split; rewrite ?Hc, ?Hi; simpl; f_equal; unfold indicator; lia.
Qed.

(** On a session with its answers and counts, [record_answer] does not
    raise; [record_answer_allow_change] never does. *)
Lemma record_answer_total s row_idx q ua ca ic qo w :
  counts_exact s →
  ∃ s' w', record_answer json_dumps s row_idx q ua ca ic qo w = Ok (s', w').
Proof.
  intros (answers & Hans & Hn & Hc & Hi). run_ops. rewrite Hans. simpl.
  case_decide; [|by eexists _, _].
  destruct ic; simpl; rewrite ?Hc, ?Hi; simpl; by eexists _, _.
Qed.

Lemma counts_exact_agree s : counts_exact s → counts_agree s.
Proof.
  intros (answers & Hans & Hn & Hc & Hi).
  exists answers, (len answers), (count_values get_is_correct answers),
    (count_values (λ a, negb (get_is_correct a)) answers).
  pose proof (count_values_split get_is_correct answers). by repeat split.
Qed.

Lemma reachable_exact s : reachable json_dumps flags_accurate s → counts_exact s.
Proof.
  induction 1 as [dataset split_subset w s w' Hcreate
                 |s row_idx q ua ca ic qo w s' w' _ IH Hstep
                 |s row_idx q ua ca ic qo was prev w s' w' _ IH Hflags Hstep].
  - by eapply create_empty_session_exact.
  - by eapply record_answer_exact.
  - by eapply record_answer_allow_change_exact.
Qed.

End Recorders.

Section RecorderClaims.

Context (json_dumps : Session → string).

(** C1 (amended).  For every session reachable from [create_empty_session]
    through any sequence of calls of [record_answer] and of
    [record_answer_allow_change], where each call of the latter is given the
    flags that describe the session ([was_answered] tells whether the row
    has an entry, and for such a row [previous_correct] is the [is_correct]
    of that entry, as the viewer computes them), the equality
    [answered_count == correct_count + incorrect_count == |answers|] holds
    after every call, repeated changes of one row included. *)
Theorem recorder_counts_invariant (s : Session) :
  reachable json_dumps flags_accurate s → counts_agree s.
Proof.
  intros Hreach. apply counts_exact_agree. by eapply reachable_exact.
Qed.

(** C2.  When the row already has an entry, [record_answer] returns the
    session as it is and leaves the world as it is (no clock reading, no
    write of the live session file), whatever the other arguments are; so
    a second recording of a row, with any arguments, changes neither the
    entry of the first recording nor the counts. *)
Theorem record_answer_record_once (row_idx : Z) :
  (∀ s answers q ua ca ic qo w,
     s_answers s = Some answers → str row_idx ∈ dom answers →
     record_answer json_dumps s row_idx q ua ca ic qo w = Ok (s, w)) ∧
  (∀ s0 q ua ca ic qo w0 s1 w1,
     record_answer json_dumps s0 row_idx q ua ca ic qo w0 = Ok (s1, w1) →
     ∀ q' ua' ca' ic' qo',
       record_answer json_dumps s1 row_idx q' ua' ca' ic' qo' w1 = Ok (s1, w1)).
Proof.
  split.
  - intros. by eapply record_answer_present.
  - intros s0 q ua ca ic qo w0 s1 w1 Hfirst q' ua' ca' ic' qo'.
    destruct (record_answer_marks _ _ _ _ _ _ _ _ _ _ _ Hfirst)
      as (answers1 & Hans1 & Hin1).
    by eapply record_answer_present.
Qed.

End RecorderClaims.

Lemma run_created_reachable flags_ok :
  reachable no_text flags_ok (session_of run_created).
Proof. by eapply reach_create with (w := world0 []). Qed.

Lemma run_row0_reachable flags_ok :
  reachable no_text flags_ok (session_of run_row0).
Proof.
  eapply (reach_record _ _ (session_of run_created) 0 "q0" "A" "A" true EmptyString
            (world_of run_created) _ (world_of run_row0)).
  - apply run_created_reachable.
  - by vm_compute.
Qed.

Lemma recorder_counts_invariant_witness :
  reachable no_text flags_accurate (session_of run_row1_changed) ∧
  counts_agree (session_of run_row1_changed).
Proof.
  assert (reachable no_text flags_accurate (session_of run_row1_changed)) as Hreach.
  { eapply (reach_change _ _ (session_of run_row1) 1 "q1" "C" "C" true EmptyString true false
              (world_of run_row1) _ (world_of run_row1_changed)).
    - eapply (reach_change _ _ (session_of run_row0) 1 "q1" "B" "C" false EmptyString
                false false (world_of run_row0) _ (world_of run_row1)).
      + apply run_row0_reachable.
      + eexists. split; [reflexivity|]. by vm_compute.
      + by vm_compute.
    - eexists. split; [reflexivity|]. by vm_compute.
    - by vm_compute. }
  split; [exact Hreach|].
  exact (recorder_counts_invariant no_text _ Hreach).
Defined.

(** The count-correction example of the specification. *)
Example count_correction :
  s_answered_count (session_of run_row1_changed) = Some 2 ∧
  s_correct_count (session_of run_row1_changed) = Some 2 ∧
  s_incorrect_count (session_of run_row1_changed) = Some 0.
Proof. by vm_compute. Qed.

(** C1, as stated, fails: two calls of [record_answer_allow_change] for
    row 0, both with [was_answered] false, leave one entry and a
    [correct_count] of 2. *)
Lemma counts_drift_with_arbitrary_flags :
  reachable no_text any_flags (session_of run_twice) ∧
  (size <$> s_answers (session_of run_twice)) = Some 1%nat ∧
  s_answered_count (session_of run_twice) = Some 1 ∧
  s_correct_count (session_of run_twice) = Some 2 ∧
  s_incorrect_count (session_of run_twice) = Some 0 ∧
  ¬ counts_agree (session_of run_twice).
Proof.
  split.
  { eapply (reach_change _ _ (session_of run_once) 0 "q0" "A" "A" true EmptyString false
              false (world_of run_once) _ (world_of run_twice));
      [|done|by vm_compute].
    eapply (reach_change _ _ (session_of run_created) 0 "q0" "A" "A" true EmptyString
              false false (world_of run_created) _ (world_of run_once));
      [|done|by vm_compute].
    apply run_created_reachable. }
  repeat split; try by vm_compute.
  intros (answers & n & c & i & Hans & Hn & Hc & Hi & Hsum & _).
  vm_compute in Hn, Hc, Hi. injection Hn as <-. injection Hc as <-.
  injection Hi as <-. discriminate Hsum.
Qed.

Lemma record_answer_record_once_witness :
  record_answer no_text (session_of run_created) 0 "q0" "A" "A" true EmptyString
    (world_of run_created) = Ok (session_of run_row0, world_of run_row0) ∧
  record_answer no_text (session_of run_row0) 0 "q0" "B" "A" false EmptyString
    (world_of run_row0) = Ok (session_of run_row0, world_of run_row0).
Proof.
  assert (record_answer no_text (session_of run_created) 0 "q0" "A" "A" true EmptyString
            (world_of run_created) = Ok (session_of run_row0, world_of run_row0))
    as Hfirst by (by vm_compute).
  split; [exact Hfirst|].
  exact (proj2 (record_answer_record_once no_text 0) _ _ _ _ _ _ _ _ _ Hfirst
           "q0" "B" "A" false EmptyString).
Defined.

(** ** Sessions that predate the answers and the counts *)

Section Legacy.

Context (json_dumps : Session → string).

Lemma record_answer_allow_change_result
    (s : Session) (row_idx : Z) (q ua ca : string) (ic : bool) (qo : string)
    (was prev : bool) (w : World) :
  let answers0 := default ∅ (s_answers s) in
  let c0 := default (count_values get_is_correct answers0) (s_correct_count s) in
  let i0 := default (count_values (λ a, negb (get_is_correct a)) answers0)
              (s_incorrect_count s) in
  let answers1 :=
    <[str row_idx := new_record q ua ca ic qo (w_clock w (w_tick w))]> answers0 in
  ∃ s' w',
    record_answer_allow_change json_dumps s row_idx q ua ca ic qo was prev w
    = Ok (s', w') ∧
    s_answers s' = Some answers1 ∧
    s_answered_count s' = Some (len answers1) ∧
    s_correct_count s' = Some (adjusted_correct c0 was prev ic) ∧
    s_incorrect_count s' = Some (adjusted_incorrect i0 was prev ic).
Proof.
  destruct s as [id created updated dataset split total n c i answers bm row].
  unfold adjusted_correct, adjusted_incorrect.
  destruct answers as [answers|], n as [n|], c as [c|], i as [i|],
    was, prev, ic; run_ops; eexists _, _; repeat split.
Qed.



End Legacy.

(** A session file from before the counts existed: two entries, no
    counts.  The first change of row 1 derives the counts 1 and 1 and
    then moves the row from incorrect to correct. *)
Example legacy_counts_derived :
  let legacy :=
    mkSession (Some "x") None None None None None None None None
      (Some (<["0" := answer_at true]> (<["1" := answer_at false]> ∅)))
      None None in
  let s' := session_of (record_answer_allow_change no_text legacy 1 "q" "A" "A"
                          true EmptyString true false (world0 [])) in
  s_answered_count s' = Some 2 ∧ s_correct_count s' = Some 2 ∧
  s_incorrect_count s' = Some 0.
Proof. by vm_compute. Qed.

(** ** Bookmarks *)

Lemma elem_of_list_remove_ne (x y : Z) (l : list Z) :
  y ≠ x → y ∈ list_remove x l ↔ y ∈ l.
Proof.
  intros Hne. induction l as [|z l IH]; simpl; [done|].
  case_decide as Hz.
  - subst z. rewrite elem_of_cons. split; [by right|]. by intros [?|?].
  - rewrite !elem_of_cons, IH. done.
Qed.

Lemma list_remove_Permutation (x : Z) (l : list Z) :
  x ∈ l → x :: list_remove x l ≡ₚ l.
Proof.
  induction l as [|z l IH]; simpl.
  - by intros ?%elem_of_nil.
  - case_decide as Hz; [by subst z|].
    intros [?|Hin]%elem_of_cons; [congruence|].
    rewrite Permutation_swap. by rewrite IH.
Qed.

Lemma list_remove_NoDup (x : Z) (l : list Z) :
  NoDup l → NoDup (list_remove x l) ∧ x ∉ list_remove x l.
Proof.
  intros Hnd. destruct (decide (x ∈ l)) as [Hin|Hout].
  - pose proof (list_remove_Permutation x l Hin) as Hperm.
    rewrite <- Hperm in Hnd. by apply NoDup_cons in Hnd as [? ?].
  - assert (list_remove x l = l) as ->; [|done].
    clear Hnd. induction l as [|z l IH]; simpl; [done|].
    apply not_elem_of_cons in Hout as [? ?].
    case_decide; [congruence|]. by rewrite IH.
Qed.

Lemma list_remove_app_fresh (x : Z) (l : list Z) :
  x ∉ l → list_remove x (l ++ [x]) = l.
Proof.
  induction l as [|z l IH]; simpl; intros Hout.
  - by case_decide.
  - apply not_elem_of_cons in Hout as [? ?].
    case_decide; [congruence|]. by rewrite IH.
Qed.

Section Bookmarks.

Context (json_dumps : Session → string).

Lemma toggle_bookmark_run (s : Session) (l : list Z) (r : Z) (w : World) :
  s_bookmarks s = Some l →
  ∃ s' w',
    toggle_bookmark json_dumps s r w = Ok (s', w') ∧
    s_bookmarks s' =
      Some (if decide (r ∈ l) then list_remove r l else l ++ [r]).
Proof.
  intros Hbm. run_ops. rewrite Hbm. simpl.
  eexists _, _. split; [reflexivity|]. simpl. by case_decide.
Qed.

(** C3 (amended).  For every session whose bookmark list has no
    duplicates, and every row index [r]: [toggle_bookmark] succeeds, the
    list that it leaves has no duplicates either, [r] is in it exactly
    when [r] was not in the list before, and the membership of every
    other index is unchanged; and toggling [r] a second time leaves a
    list with the elements of the original one.  In particular no
    duplicates arise through toggles from the empty list of a new
    session. *)
Theorem toggle_bookmark_involutive (s : Session) (l : list Z) (r : Z) (w : World) :
  s_bookmarks s = Some l → NoDup l →
  ∃ s1 w1 l1 s2 w2 l2,
    toggle_bookmark json_dumps s r w = Ok (s1, w1) ∧
    s_bookmarks s1 = Some l1 ∧
    NoDup l1 ∧ (r ∈ l1 ↔ r ∉ l) ∧ (∀ x, x ≠ r → x ∈ l1 ↔ x ∈ l) ∧
    toggle_bookmark json_dumps s1 r w1 = Ok (s2, w2) ∧
    s_bookmarks s2 = Some l2 ∧
    NoDup l2 ∧ l2 ≡ₚ l.
Proof.
  intros Hbm Hnd.
  destruct (toggle_bookmark_run s l r w Hbm) as (s1 & w1 & Hrun1 & Hbm1).
  destruct (decide (r ∈ l)) as [Hin|Hout].
  - destruct (list_remove_NoDup r l Hnd) as [Hnd1 Hout1].
    destruct (toggle_bookmark_run s1 _ r w1 Hbm1) as (s2 & w2 & Hrun2 & Hbm2).
    rewrite decide_False in Hbm2 by done.
    assert (list_remove r l ++ [r] ≡ₚ l) as Hperm.
    { rewrite <- (list_remove_Permutation r l Hin) at 2.
      by rewrite Permutation_app_comm. }
    exists s1, w1, (list_remove r l), s2, w2, (list_remove r l ++ [r]).
    split_and!; try done.
    + intros x Hne. by apply elem_of_list_remove_ne.
    + by rewrite Hperm.
  - assert (r ∈ l ++ [r]) as Hin1
      by (apply elem_of_app; right; by apply list_elem_of_singleton).
    destruct (toggle_bookmark_run s1 _ r w1 Hbm1) as (s2 & w2 & Hrun2 & Hbm2).
    rewrite decide_True in Hbm2 by done.
    rewrite list_remove_app_fresh in Hbm2 by done.
    exists s1, w1, (l ++ [r]), s2, w2, l.
    split_and!; try done.
    + apply NoDup_app. split_and!; [done| |apply NoDup_singleton].
      by intros x Hx ->%list_elem_of_singleton.
    + intros x Hne. rewrite elem_of_app, list_elem_of_singleton. split.
      * by intros [?|?].
      * by left.
Qed.

(** No toggle from a new session ever leaves an index twice in the
    list. *)
Lemma toggled_NoDup (s : Session) :
  toggled json_dumps s → ∃ l, s_bookmarks s = Some l ∧ NoDup l.
Proof.
  induction 1 as [dataset split_subset w s w' Hcreate
                 |s row_idx w s' w' _ (l & Hbm & Hnd) Hstep].
  - run_ops. injection Hcreate as <- <-. exists []. split; [done|constructor].
  - destruct (toggle_bookmark_run s l row_idx w Hbm) as (s1 & w1 & Hrun & Hbm1).
    rewrite Hstep in Hrun. injection Hrun as <- <-.
    eexists. split; [exact Hbm1|].
    case_decide as Hin.
    + by apply list_remove_NoDup.
    + apply NoDup_app. split_and!; [done| |apply NoDup_singleton].
      by intros x Hx ->%list_elem_of_singleton.
Qed.

End Bookmarks.

Lemma toggle_bookmark_involutive_witness :
  s_bookmarks (session_with ∅ [3; 5]) = Some [3; 5] ∧ NoDup [3; 5] ∧
  ∃ s1 w1 l1 s2 w2 l2,
    toggle_bookmark no_text (session_with ∅ [3; 5]) 3 (world0 []) = Ok (s1, w1) ∧
    s_bookmarks s1 = Some l1 ∧
    NoDup l1 ∧ (3 ∈ l1 ↔ 3 ∉ [3; 5]) ∧ (∀ x, x ≠ 3 → x ∈ l1 ↔ x ∈ [3; 5]) ∧
    toggle_bookmark no_text s1 3 w1 = Ok (s2, w2) ∧
    s_bookmarks s2 = Some l2 ∧
    NoDup l2 ∧ l2 ≡ₚ [3; 5].
Proof.
  assert (NoDup [3; 5]) as Hnd by (by apply (bool_decide_unpack _)).
  split; [reflexivity|]. split; [exact Hnd|].
  exact (toggle_bookmark_involutive no_text (session_with ∅ [3; 5]) [3; 5] 3
           (world0 []) eq_refl Hnd).
Defined.

(** C3, as stated for every session, fails on a bookmark list in which an
    index occurs twice: one toggle of row 1 leaves it bookmarked, and two
    toggles leave it not bookmarked, while it was bookmarked at first. *)
Lemma toggle_bookmark_duplicate_entry :
  let s := session_with ∅ [1; 1] in
  let r1 := toggle_bookmark no_text s 1 (world0 []) in
  let r2 := toggle_bookmark no_text (session_of r1) 1 (world_of r1) in
  s_bookmarks s = Some [1; 1] ∧
  s_bookmarks (session_of r1) = Some [1] ∧
  s_bookmarks (session_of r2) = Some [] ∧
  ¬ (∀ x : Z, x ∈ [1; 1] ↔ x ∈ @nil Z).
Proof.
  repeat split; try by vm_compute.
  intros H. apply (elem_of_nil (1 : Z)). apply H. by left.
Qed.

(** ** Skipping to the next unanswered row *)

Section Unanswered.

Context (s : Session) (answers : gmap string AnswerRecord).
Context (Hanswers : s_answers s = Some answers).

Lemma is_row_answered_decides (i : Z) :
  is_row_answered s i = Ok (bool_decide (answered answers i)).
Proof. unfold is_row_answered. by rewrite Hanswers. Qed.

Lemma visited_next (idx total_rows direction k : Z) :
  visited ((idx + direction) mod total_rows) total_rows direction k
  = visited idx total_rows direction (k + 1).
Proof.
  unfold visited. rewrite Zplus_mod_idemp_l. f_equal. lia.
Qed.

Lemma unanswered_loop_spec (current_idx total_rows direction : Z) (n : nat) :
  ∀ idx,
    (∃ k, 1 ≤ k ≤ Z.of_nat n ∧
          ¬ answered answers (visited idx total_rows direction k) ∧
          (∀ j, 1 ≤ j < k → answered answers (visited idx total_rows direction j)) ∧
          unanswered_loop s current_idx total_rows direction n idx
          = Ok (visited idx total_rows direction k)) ∨
    ((∀ j, 1 ≤ j ≤ Z.of_nat n → answered answers (visited idx total_rows direction j)) ∧
     unanswered_loop s current_idx total_rows direction n idx = Ok current_idx).
Proof.
  induction n as [|n IH]; intros idx; simpl.
  - right. split; [intros j Hj; lia | done].
  - rewrite is_row_answered_decides.
    assert ((idx + direction) mod total_rows = visited idx total_rows direction 1)
      as Hfirst by (unfold visited; f_equal; lia).
    destruct (decide (answered answers ((idx + direction) mod total_rows))) as [Hyes|Hno].
    + rewrite bool_decide_eq_true_2 by done.
      destruct (IH ((idx + direction) mod total_rows))
        as [(k & Hk & Hfree & Hbefore & Hrun)|[Hall Hrun]].
      * left. exists (k + 1). rewrite visited_next in Hfree, Hrun.
        split_and!; [lia|lia|done| |done].
        intros j Hj. destruct (decide (j = 1)) as [->|Hne].
        -- by rewrite <- Hfirst.
        -- replace j with ((j - 1) + 1) by lia. rewrite <- visited_next.
           apply Hbefore. lia.
      * right. split; [|done].
        intros j Hj. destruct (decide (j = 1)) as [->|Hne].
        -- by rewrite <- Hfirst.
        -- replace j with ((j - 1) + 1) by lia. rewrite <- visited_next.
           apply Hall. lia.
    + rewrite bool_decide_eq_false_2 by done.
      left. exists 1. rewrite <- Hfirst.
      split_and!; [lia|lia|done| |done]. intros j Hj; lia.
Qed.


End Unanswered.



(** The two examples of the specification: with three rows of which 0
    and 2 are answered, the search from row 0 gives row 1; with all three
    answered, the search from row 1 gives row 1. *)
Example skip_to_unanswered_wraparound :
  get_next_unanswered_row (session_rows [0; 2]) 0 3 1 = Ok 1 ∧
  get_next_unanswered_row (session_rows [0; 1; 2]) 1 3 1 = Ok 1 ∧
  get_next_unanswered_row (session_rows [0; 1; 2]) 1 3 (-1) = Ok 1 ∧
  get_next_unanswered_row (session_rows [0; 1]) 0 3 (-1) = Ok 2.
Proof. by vm_compute. Qed.


(** ** Jumping to the next answered row *)





Lemma int_keys_spec (keys : list string) :
  (∀ k, k ∈ keys → is_Some (py_int k)) →
  ∃ rows, int_keys keys = Ok rows ∧
          ∀ i, i ∈ rows ↔ ∃ k, k ∈ keys ∧ py_int k = Some i.
Proof.
  induction keys as [|k keys IH]; simpl; intros Hnum.
  - exists []. split; [done|]. intros i. split.
    + by intros ?%elem_of_nil.
    + by intros (k & ?%elem_of_nil & _).
  - destruct (Hnum k) as [i Hi]; [by left|]. rewrite Hi.
    destruct IH as (rows & -> & Hrows); [intros; apply Hnum; by right|].
    simpl. exists (i :: rows). split; [done|].
    intros j. rewrite elem_of_cons, Hrows. split.
    + intros [->|(k' & Hk' & Hj)]; [exists k; split; [by left|done]|].
      exists k'. split; [by right|done].
    + intros (k' & [->|Hk']%elem_of_cons & Hj); [left; congruence|].
      right. by exists k'.
Qed.

Lemma elem_of_keys (answers : gmap string AnswerRecord) (k : string) :
  k ∈ (map_to_list answers).*1 ↔ k ∈ dom answers.
Proof.
  rewrite list_elem_of_fmap, elem_of_dom. split.
  - intros ([k' a] & -> & Hin%elem_of_map_to_list). by exists a.
  - intros [a Ha]. exists (k, a). split; [done|]. by apply elem_of_map_to_list.
Qed.

Lemma get_answered_rows_spec (session : option Session) :
  numeral_keys session →
  ∃ rows, get_answered_rows session = Ok rows ∧
          StronglySorted Z.le rows ∧
          ∀ i, i ∈ rows ↔ answered_index session i.
Proof.
  intros Hnum. unfold get_answered_rows.
  destruct session as [s|]; [destruct (s_answers s) as [answers|] eqn:Hanswers|].
  - destruct (int_keys_spec (map_to_list answers).*1) as (rows & -> & Hrows).
    { intros k Hk%elem_of_keys. by eapply Hnum. }
    simpl. exists (sorted rows). split; [done|]. split.
    + apply StronglySorted_merge_sort; apply _.
    + intros i. unfold sorted. rewrite merge_sort_Permutation, Hrows. split.
      * intros (k & Hk%elem_of_keys & Hi). by exists s, answers, k.
      * intros (s' & answers' & k & [= <-] & Hanswers' & Hk & Hi).
        rewrite Hanswers in Hanswers'. injection Hanswers' as <-.
        exists k. by rewrite elem_of_keys.
  - exists []. split; [done|]. split; [constructor|].
    intros i. split; [by intros ?%elem_of_nil|].
    intros (s' & answers' & k & [= <-] & Hanswers' & _). congruence.
  - exists []. split; [done|]. split; [constructor|].
    intros i. split; [by intros ?%elem_of_nil|].
    by intros (s' & answers' & k & [=] & _).
Qed.


(** *** The keys that the recorders write are numerals *)

Lemma string_of_uint_digits (d : Decimal.uint) :
  all_digits (NilEmpty.string_of_uint d) = true.
Proof. induction d; simpl; by rewrite ?IHd. Qed.

Lemma is_digit_not_special (a : ascii) :
  is_digit a = true →
  is_space a = false ∧ a ≠ "_"%char ∧ a ≠ "-"%char ∧ a ≠ "+"%char.
Proof.
  destruct a as [[] [] [] [] [] [] [] []]; vm_compute; intros ?;
    by repeat split.
Qed.

Lemma lstrip_digits (s : string) : all_digits s = true → lstrip s = s.
Proof.
  destruct s as [|a s]; simpl; [done|].
  intros [Ha _]%andb_prop.
  by destruct (is_digit_not_special a Ha) as (-> & _).
Qed.

Lemma rstrip_digits (s : string) : all_digits s = true → rstrip s = s.
Proof.
  induction s as [|a s IH]; simpl; [done|].
  intros [Ha Hs]%andb_prop. rewrite (IH Hs).
  destruct (is_digit_not_special a Ha) as (-> & _). by destruct s.
Qed.

Lemma scan_digits_digits (s : string) (after_digit : bool) :
  all_digits s = true → s ≠ EmptyString ∨ after_digit = true →
  scan_digits after_digit s = Some s.
Proof.
  revert after_digit. induction s as [|a s IH]; simpl; intros after Hs Hne.
  - by destruct Hne as [?| ->].
  - apply andb_prop in Hs as [Ha Hs]. rewrite Ha.
    rewrite (IH true Hs) by by right. done.
Qed.

Lemma py_uint_digits (d : Decimal.uint) :
  d ≠ Decimal.Nil →
  py_uint (NilEmpty.string_of_uint d) = Some (Z.of_uint d).
Proof.
  intros Hd. unfold py_uint.
  rewrite scan_digits_digits.
  - simpl. by rewrite NilEmpty.usu.
  - apply string_of_uint_digits.
  - left. by destruct d.
Qed.

Lemma py_int_digits (d : Decimal.uint) :
  d ≠ Decimal.Nil →
  py_int (NilEmpty.string_of_uint d) = Some (Z.of_uint d) ∧
  py_int (String "-" (NilEmpty.string_of_uint d)) = Some (- Z.of_uint d).
Proof.
  intros Hd.
  pose proof (string_of_uint_digits d) as Hdigits.
  pose proof (py_uint_digits d Hd) as Huint.
  destruct (NilEmpty.string_of_uint d) as [|a s] eqn:Hstr; [by destruct d|].
  split.
  - unfold py_int. rewrite lstrip_digits, rstrip_digits by done.
    simpl in Hdigits. apply andb_prop in Hdigits as [Ha _].
    destruct (is_digit_not_special a Ha) as (_ & _ & Hminus & Hplus).
    by rewrite !decide_False by done.
  - unfold py_int. change (lstrip (String "-" (String a s))) with (String "-" (String a s)).
    change (rstrip (String "-" (String a s)))
      with (match rstrip (String a s) with
            | EmptyString => String "-" EmptyString
            | r => String "-" r
            end).
    rewrite rstrip_digits by done.
    rewrite decide_True by done. by rewrite Huint.
Qed.

Lemma py_int_str (z : Z) : py_int (str z) = Some z.
Proof.
  unfold str. destruct z as [|p|p]; [done| |]; simpl.
  - pose proof (DecimalPos.Unsigned.to_uint_nonnil p) as Hp.
    destruct (py_int_digits _ Hp) as [Hpos _].
    replace (NilZero.string_of_uint (Pos.to_uint p))
      with (NilEmpty.string_of_uint (Pos.to_uint p))
      by by destruct (Pos.to_uint p).
    rewrite Hpos. f_equal.
    unfold Z.of_uint. by rewrite DecimalPos.Unsigned.of_to.
  - pose proof (DecimalPos.Unsigned.to_uint_nonnil p) as Hp.
    destruct (py_int_digits _ Hp) as [_ Hneg].
    replace (NilZero.string_of_uint (Pos.to_uint p))
      with (NilEmpty.string_of_uint (Pos.to_uint p))
      by by destruct (Pos.to_uint p).
    rewrite Hneg. f_equal.
    unfold Z.of_uint. by rewrite DecimalPos.Unsigned.of_to.
Qed.

Lemma str_inj (i j : Z) : str i = str j → i = j.
Proof.
  intros Heq. pose proof (py_int_str i) as Hi. rewrite Heq, py_int_str in Hi.
  congruence.
Qed.

Lemma canonical_numeral_keys (s : Session) (answers : gmap string AnswerRecord) :
  s_answers s = Some answers → canonical_keys answers → numeral_keys (Some s).
Proof.
  intros Hanswers Hcanon s' answers' k [= <-] Hanswers' Hk.
  rewrite Hanswers in Hanswers'. injection Hanswers' as <-.
  destruct (Hcanon k Hk) as [i ->]. rewrite py_int_str. by eexists.
Qed.

(** On canonical keys the answered indices are the rows that
    [is_row_answered] tells answered. *)
Lemma answered_index_canonical (s : Session) (answers : gmap string AnswerRecord) (i : Z) :
  s_answers s = Some answers → canonical_keys answers →
  answered_index (Some s) i ↔ is_row_answered s i = Ok true.
Proof.
  intros Hanswers Hcanon.
  rewrite (is_row_answered_decides s answers Hanswers).
  split.
  - intros (s' & answers' & k & [= <-] & Hanswers' & Hk & Hi).
    rewrite Hanswers in Hanswers'. injection Hanswers' as <-.
    destruct (Hcanon k Hk) as [j ->]. rewrite py_int_str in Hi.
    injection Hi as ->. by rewrite bool_decide_eq_true_2.
  - intros [= Hin%bool_decide_eq_true_1].
    exists s, answers, (str i). by rewrite py_int_str.
Qed.

Lemma canonical_keys_insert (answers : gmap string AnswerRecord) (i : Z) (a : AnswerRecord) :
  canonical_keys answers → canonical_keys (<[str i := a]> answers).
Proof.
  intros Hcanon k. rewrite dom_insert_L, elem_of_union, elem_of_singleton.
  intros [->|Hk]; [by exists i | by apply Hcanon].
Qed.

Lemma reachable_canonical json_dumps flags_ok (s : Session) :
  reachable json_dumps flags_ok s →
  ∃ answers, s_answers s = Some answers ∧ canonical_keys answers.
Proof.
  induction 1 as [dataset split_subset w s w' Hcreate
                 |s row_idx q ua ca ic qo w s' w' _ IH Hstep
                 |s row_idx q ua ca ic qo was prev w s' w' _ IH _ Hstep].
  - run_ops. injection Hcreate as <- <-. exists ∅. split; [done|].
    intros k Hk. by rewrite dom_empty_L in Hk.
  - destruct IH as (answers & Hanswers & Hcanon).
    run_ops. rewrite Hanswers in Hstep. simpl in Hstep.
    case_decide; [|injection Hstep as <- <-; by exists answers].
    destruct ic; simpl in Hstep;
      [destruct (s_correct_count s)|destruct (s_incorrect_count s)];
      simpl in Hstep; try done; injection Hstep as <- <-;
      eexists; (split; [done|]); by apply canonical_keys_insert.
  - destruct IH as (answers & Hanswers & Hcanon).
    destruct (record_answer_allow_change_result json_dumps s row_idx q ua ca ic
                qo was prev w) as (s1 & w1 & Hrun & Hanswers1 & _).
    rewrite Hstep in Hrun. injection Hrun as <- <-.
    eexists. split; [exact Hanswers1|].
    rewrite Hanswers. simpl. by apply canonical_keys_insert.
Qed.



(** The examples of the specification: with the rows 0, 2 and 4
    answered, the next answered row after row 3 is row 4, and the
    previous one before row 0 is row 4; a session without answered rows
    gives [None]. *)
Example jump_to_answered_wraparound :
  get_next_answered_row (Some (session_rows [0; 2; 4])) 3 1 = Ok (Some 4) ∧
  get_next_answered_row (Some (session_rows [0; 2; 4])) 0 (-1) = Ok (Some 4) ∧
  get_next_answered_row (Some (session_rows [0; 2; 4])) 4 1 = Ok (Some 0) ∧
  get_next_answered_row (Some (session_rows [0; 2; 4])) 3 (-1) = Ok (Some 2) ∧
  get_next_answered_row (Some (session_rows [])) 0 1 = Ok None ∧
  get_next_answered_row (Some empty_dict) 0 1 = Ok None ∧
  get_next_answered_row None 0 (-1) = Ok None.
Proof. by vm_compute. Qed.

(** ** File names and substrings *)


Lemma app_cons_string (x : ascii) (a b : string) :
  String x a +:+ b = String x (a +:+ b).
Proof. reflexivity. Qed.













(** ** Loading the live session and the archives *)

Ltac run_load :=
  unfold load_current_session, load_session_by_id, json_load_file,
    glob_sessions, file_exists, try_except, ensure_sessions_dir, read_text,
    bind, ret in *;
  simpl in *.

Section LoadingProperties.

Context (json_loads : string → option Session).

Implicit Types (w : World) (name q : string).



Lemma json_load_file_undecodable w name bytes :
  dir_read name (w_dir w) = Some bytes → utf8_valid bytes = false →
  json_load_file json_loads name w = Raise UnicodeDecodeError.
Proof. intros Hread Hutf. run_load. by repeat (rewrite ?Hread, ?Hutf; simpl). Qed.

(** The live session file is missing: no session. *)
Lemma load_current_session_missing w :
  dir_read CURRENT_SESSION_FILE (w_dir w) = None →
  load_current_session json_loads w = Ok (None, w).
Proof. intros Hread. run_load. by repeat (rewrite ?Hread; simpl). Qed.

(** The live session file holds a text that is not JSON: no session. *)
Lemma load_current_session_not_json w :
  not_json json_loads (w_dir w) CURRENT_SESSION_FILE →
  load_current_session json_loads w = Ok (None, w).
Proof.
  intros (bytes & Hread & Hutf & Hjson). run_load.
  by repeat (rewrite ?Hread, ?Hutf, ?Hjson; simpl).
Qed.

Lemma load_current_session_loads w v :
  loads_to json_loads (w_dir w) CURRENT_SESSION_FILE v →
  load_current_session json_loads w = Ok (Some v, w).
Proof.
  intros (bytes & Hread & Hutf & Hjson). run_load.
  by repeat (rewrite ?Hread, ?Hutf, ?Hjson; simpl).
Qed.

(** The live session file holds bytes that are not UTF-8: the error of the
    decoder is none of the two that the function handles. *)
Lemma load_current_session_undecodable w bytes :
  dir_read CURRENT_SESSION_FILE (w_dir w) = Some bytes →
  utf8_valid bytes = false →
  load_current_session json_loads w = Raise UnicodeDecodeError.
Proof. intros Hread Hutf. run_load. by repeat (rewrite ?Hread, ?Hutf; simpl). Qed.





(** The file named by the query holds bytes that are not UTF-8: the
    error leaves the function, and the other archives are not looked at
    either. *)
Lemma load_session_by_id_exact_undecodable q w bytes :
  dir_read (archive_file q) (w_dir w) = Some bytes →
  utf8_valid bytes = false →
  load_session_by_id json_loads q w = Raise UnicodeDecodeError.
Proof.
  intros Hread Hutf. unfold archive_file in Hread.
  run_load. by repeat (rewrite ?Hread, ?Hutf; simpl).
Qed.

Lemma load_session_by_id_partial q w :
  dir_read (archive_file q) (w_dir w) = None →
  load_session_by_id json_loads q w
  = partial_match json_loads q
      (filter (λ n, glob_session n = true) (w_dir w).*1) w.
Proof.
  intros Hread. unfold archive_file in Hread. run_load. by repeat (rewrite ?Hread; simpl).
Qed.



End LoadingProperties.



(** C6 fails on the code: a live session file whose bytes are not UTF-8
    makes [load_current_session] raise [UnicodeDecodeError], whatever the
    JSON parser does. *)
Theorem load_current_session_raises (json_loads : string → option Session) :
  load_current_session json_loads (world0 dir_undecodable) = Raise UnicodeDecodeError.
Proof. reflexivity. Qed.

(** The same for a text saved in Latin-1: the byte 233 stands for a
    letter there and starts an incomplete sequence in UTF-8. *)
Example load_current_session_latin1 (json_loads : string → option Session) :
  load_current_session json_loads
    (world0 [(CURRENT_SESSION_FILE, "caf" +:+ String (ascii_of_nat 233) EmptyString)])
  = Raise UnicodeDecodeError.
Proof. reflexivity. Qed.




(** Without the corrupt file named by the query, the archive whose name
    contains the query is found. *)
Example load_session_by_id_unmasked :
  load_session_by_id json_loads_braces "q1"
    (world0 [("session_xq1y.json", "{}")])
  = Ok (Some empty_dict, world0 [("session_xq1y.json", "{}")]).
Proof. reflexivity. Qed.

(** * Further properties of the module *)

(** ** What the recorders keep and what they write *)

Lemma dir_read_write_eq (name data : string) (dir : list (string * string)) :
  dir_read name (dir_write name data dir) = Some data.
Proof.
  induction dir as [|[n old] dir IH]; simpl.
  - by rewrite decide_True.
  - case_decide as Hn; simpl.
    + by rewrite decide_True.
    + by rewrite decide_False.
Qed.

Lemma dir_read_write_ne (name name' data : string) (dir : list (string * string)) :
  name' ≠ name → dir_read name' (dir_write name data dir) = dir_read name' dir.
Proof.
  intros Hne. induction dir as [|[n old] dir IH]; simpl.
  - by rewrite decide_False.
  - case_decide as Hn; simpl.
    + subst n. by rewrite !decide_False.
    + case_decide; [done|apply IH].
Qed.

Lemma dir_write_names_glob (name data : string) (dir : list (string * string)) :
  glob_session name = false →
  filter (λ n, glob_session n = true) (dir_write name data dir).*1
  = filter (λ n, glob_session n = true) dir.*1.
Proof.
  intros Hglob. induction dir as [|[n old] dir IH]; simpl.
  - rewrite filter_cons_False; [done|]. by rewrite Hglob.
  - case_decide as Hn; [done|].
    rewrite !fmap_cons, !filter_cons. simpl. by rewrite IH.
Qed.

Section RecorderFacts.

Context (json_dumps : Session → string).

Implicit Types (s : Session) (w : World) (answers : gmap string AnswerRecord).

Lemma save_current_session_run s w :
  let s' := set_updated_at (isoformat (w_clock w (w_tick w))) s in
  save_current_session json_dumps s w
  = Ok (s', mkWorld (w_clock w) (S (w_tick w))
              (dir_write CURRENT_SESSION_FILE (json_dumps s') (w_dir w))).
Proof. reflexivity. Qed.

Lemma record_answer_bounded s row_idx q ua ca ic qo w s' w' :
  counts_bounded s →
  record_answer json_dumps s row_idx q ua ca ic qo w = Ok (s', w') →
  counts_bounded s'.
Proof.
  intros (answers & c & i & Hans & Hn & Hc & Hi & Hc0 & Hi0).
  run_ops. rewrite Hans. simpl.
  case_decide as Hin; [|by intros [= <- <-]; exists answers, c, i].
  destruct ic; simpl; rewrite ?Hc, ?Hi; simpl; intros [= <- <-];
    eexists _, _, _; simpl; split_and!; try done; lia.
Qed.

Lemma record_answer_allow_change_bounded s row_idx q ua ca ic qo was prev w s' w' :
  counts_bounded s →
  record_answer_allow_change json_dumps s row_idx q ua ca ic qo was prev w
    = Ok (s', w') →
  counts_bounded s'.
Proof.
  intros (answers & c & i & Hans & Hn & Hc & Hi & Hc0 & Hi0) Hrun.
  destruct (record_answer_allow_change_result json_dumps s row_idx q ua ca ic qo
              was prev w) as (s1 & w1 & Hrun1 & Hans1 & Hn1 & Hc1 & Hi1).
  rewrite Hrun in Hrun1. injection Hrun1 as <- <-.
  rewrite Hans, Hc, Hi in *. simpl in *.
  eexists _, _, _. split_and!; try done.
  - unfold adjusted_correct. destruct (was && prev), ic; lia.
  - unfold adjusted_incorrect. destruct (was && negb prev), ic; lia.
Qed.

Lemma reachable_bounded flags_ok s :
  reachable json_dumps flags_ok s → counts_bounded s.
Proof.
  induction 1 as [dataset split_subset w s w' Hcreate
                 |s row_idx q ua ca ic qo w s' w' _ IH Hstep
                 |s row_idx q ua ca ic qo was prev w s' w' _ IH _ Hstep].
  - run_ops. injection Hcreate as <- <-. exists ∅, 0, 0. simpl.
    unfold len. rewrite map_size_empty. by split_and!.
  - by eapply record_answer_bounded.
  - by eapply record_answer_allow_change_bounded.
Qed.

(** X1.  On every session that the recorders produce from a new session,
    with the flags of [record_answer_allow_change] describing the
    session, each count is the number of entries it stands for:
    [answered_count] of all entries, [correct_count] of the entries whose
    [is_correct] is true, [incorrect_count] of the others. *)
Theorem recorder_counts_exact s :
  reachable json_dumps flags_accurate s →
  ∃ answers,
    s_answers s = Some answers ∧
    s_answered_count s = Some (len answers) ∧
    s_correct_count s = Some (count_values get_is_correct answers) ∧
    s_incorrect_count s
    = Some (count_values (λ a, negb (get_is_correct a)) answers).
Proof. apply reachable_exact. Qed.

(** X2.  Whatever flags [record_answer_allow_change] is given, on every
    session that the recorders produce from a new session the answers and
    the three counts are there, [answered_count] is the number of
    entries, and neither [correct_count] nor [incorrect_count] is
    negative. *)
Theorem recorder_counts_bounded flags_ok s :
  reachable json_dumps flags_ok s →
  ∃ answers c i,
    s_answers s = Some answers ∧ s_answered_count s = Some (len answers) ∧
    s_correct_count s = Some c ∧ s_incorrect_count s = Some i ∧
    0 ≤ c ∧ 0 ≤ i.
Proof. apply reachable_bounded. Qed.

(** X3.  [record_answer] for a row without an entry, on a session that
    has its answers and the count that the answer falls in: it writes the
    entry with the given fields and the reading of the clock, leaves the
    entries of the other keys, sets [answered_count] to the old number of
    entries plus one, adds one to the count of the answer's correctness
    and leaves the other count, and ends with the live session file
    holding the dump of the session that it returns. *)
Theorem record_answer_fresh s answers row_idx q ua ca (ic : bool) qo w (c : Z) :
  s_answers s = Some answers →
  str row_idx ∉ dom answers →
  (if ic then s_correct_count s else s_incorrect_count s) = Some c →
  ∃ s' w',
    record_answer json_dumps s row_idx q ua ca ic qo w = Ok (s', w') ∧
    s_answers s'
    = Some (<[str row_idx := new_record q ua ca ic qo (w_clock w (w_tick w))]>
              answers) ∧
    s_answered_count s' = Some (len answers + 1) ∧
    s_correct_count s' = (if ic then Some (c + 1) else s_correct_count s) ∧
    s_incorrect_count s' = (if ic then s_incorrect_count s else Some (c + 1)) ∧
    s_bookmarks s' = s_bookmarks s ∧
    dir_read CURRENT_SESSION_FILE (w_dir w') = Some (json_dumps s').
Proof.
  intros Hans Hin Hc. run_ops. rewrite Hans. simpl.
  rewrite decide_True by done.
  assert (answers !! str row_idx = None) as Hfresh by by apply not_elem_of_dom.
  destruct ic; rewrite Hc; simpl; eexists _, _; (split; [reflexivity|]); simpl;
    rewrite len_insert_fresh by done; split_and!; try done;
    apply dir_read_write_eq.
Qed.

(** X4.  A session without the key [answers]: [record_answer] raises
    [KeyError], and so does [get_next_unanswered_row] whenever
    [total_rows > 0], while [get_next_answered_row] returns [None]. *)
Theorem missing_answers_key s row_idx q ua ca ic qo w current_idx total_rows direction :
  s_answers s = None → 0 < total_rows →
  record_answer json_dumps s row_idx q ua ca ic qo w = Raise (KeyError "answers") ∧
  get_next_unanswered_row s current_idx total_rows direction
  = Raise (KeyError "answers") ∧
  get_next_answered_row (Some s) current_idx direction = Ok None.
Proof.
  intros Hans Hpos. split_and!.
  - run_ops. by rewrite Hans.
  - unfold get_next_unanswered_row.
    destruct (Z.to_nat total_rows) as [|n] eqn:Hn; [lia|]. simpl.
    unfold is_row_answered. by rewrite Hans.
  - unfold get_next_answered_row, get_answered_rows. by rewrite Hans.
Qed.


(** X6.  [record_answer_allow_change] writes the entry of its row and of
    no other row: afterwards the row is answered, its entry is the new
    one, and the entry of every other row index is what it was. *)
Theorem record_answer_allow_change_one_row s row_idx q ua ca ic qo was prev w :
  ∃ s' w' answers',
    record_answer_allow_change json_dumps s row_idx q ua ca ic qo was prev w
    = Ok (s', w') ∧
    s_answers s' = Some answers' ∧
    is_row_answered s' row_idx = Ok true ∧
    answers' !! str row_idx
    = Some (new_record q ua ca ic qo (w_clock w (w_tick w))) ∧
    ∀ other, other ≠ row_idx →
      answers' !! str other = default ∅ (s_answers s) !! str other.
Proof.
  destruct (record_answer_allow_change_result json_dumps s row_idx q ua ca ic qo
              was prev w) as (s' & w' & Hrun & Hans & _).
  eexists s', w', _. split_and!; [done|done| | |].
  - unfold is_row_answered. rewrite Hans. f_equal.
    apply bool_decide_eq_true_2, elem_of_dom. rewrite lookup_insert_eq. by eexists.
  - by rewrite lookup_insert_eq.
  - intros other Hne. rewrite lookup_insert_ne; [done|].
    intros Heq%str_inj. congruence.
Qed.

End RecorderFacts.

Lemma run_row1_changed_reachable :
  reachable no_text flags_accurate (session_of run_row1_changed).
Proof.
  eapply (reach_change _ _ (session_of run_row1) 1 "q1" "C" "C" true EmptyString
            true false (world_of run_row1) _ (world_of run_row1_changed)).
  - eapply (reach_change _ _ (session_of run_row0) 1 "q1" "B" "C" false
              EmptyString false false (world_of run_row0) _ (world_of run_row1)).
    + apply run_row0_reachable.
    + eexists. split; [reflexivity|]. by vm_compute.
    + by vm_compute.
  - eexists. split; [reflexivity|]. by vm_compute.
  - by vm_compute.
Qed.

Lemma run_twice_reachable :
  reachable no_text any_flags (session_of run_twice).
Proof.
  eapply (reach_change _ _ (session_of run_once) 0 "q0" "A" "A" true EmptyString
            false false (world_of run_once) _ (world_of run_twice));
    [|done|by vm_compute].
  eapply (reach_change _ _ (session_of run_created) 0 "q0" "A" "A" true
            EmptyString false false (world_of run_created) _ (world_of run_once));
    [|done|by vm_compute].
  apply run_created_reachable.
Qed.

Lemma recorder_counts_exact_witness :
  reachable no_text flags_accurate (session_of run_row1_changed) ∧
  ∃ answers,
    s_answers (session_of run_row1_changed) = Some answers ∧
    s_answered_count (session_of run_row1_changed) = Some (len answers) ∧
    s_correct_count (session_of run_row1_changed)
    = Some (count_values get_is_correct answers) ∧
    s_incorrect_count (session_of run_row1_changed)
    = Some (count_values (λ a, negb (get_is_correct a)) answers).
Proof.
  split; [exact run_row1_changed_reachable|].
  exact (recorder_counts_exact no_text _ run_row1_changed_reachable).
Defined.

Lemma recorder_counts_bounded_witness :
  reachable no_text any_flags (session_of run_twice) ∧
  ∃ answers c i,
    s_answers (session_of run_twice) = Some answers ∧
    s_answered_count (session_of run_twice) = Some (len answers) ∧
    s_correct_count (session_of run_twice) = Some c ∧
    s_incorrect_count (session_of run_twice) = Some i ∧ 0 ≤ c ∧ 0 ≤ i.
Proof.
  split; [exact run_twice_reachable|].
  exact (recorder_counts_bounded no_text any_flags _ run_twice_reachable).
Defined.

Lemma record_answer_fresh_witness :
  s_answers (session_of run_created) = Some ∅ ∧
  (str 0 ∉ dom (∅ : gmap string AnswerRecord)) ∧
  s_correct_count (session_of run_created) = Some 0 ∧
  ∃ s' w',
    record_answer no_text (session_of run_created) 0 "q0" "A" "A" true EmptyString
      (world_of run_created) = Ok (s', w') ∧
    s_answered_count s' = Some 1 ∧ s_correct_count s' = Some 1.
Proof.
  assert (str 0 ∉ dom (∅ : gmap string AnswerRecord)) as Hout
    by (rewrite dom_empty_L; apply not_elem_of_empty).
  split; [reflexivity|]. split; [exact Hout|]. split; [reflexivity|].
  destruct (record_answer_fresh no_text (session_of run_created) ∅ 0 "q0" "A" "A"
              true EmptyString (world_of run_created) 0 eq_refl Hout eq_refl)
    as (s' & w' & Hrun & _ & Hn & Hc & _).
  exists s', w'. split; [exact Hrun|]. split; [exact Hn|exact Hc].
Defined.

Lemma missing_answers_key_witness :
  s_answers empty_dict = None ∧ 0 < 3 ∧
  record_answer no_text empty_dict 0 "q" "A" "A" true EmptyString (world0 [])
  = Raise (KeyError "answers") ∧
  get_next_unanswered_row empty_dict 0 3 1 = Raise (KeyError "answers") ∧
  get_next_answered_row (Some empty_dict) 0 1 = Ok None.
Proof.
  assert (0 < 3) as Hpos by lia.
  split; [reflexivity|]. split; [exact Hpos|].
  exact (missing_answers_key no_text empty_dict 0 "q" "A" "A" true EmptyString
           (world0 []) 0 3 1 eq_refl Hpos).
Defined.

(** ** Bookmarks and the other fields *)

Section Frames.

Context (json_dumps : Session → string).

Implicit Types (s : Session) (w : World).

(** X7.  The operations keep apart: [toggle_bookmark] changes neither
    the answers nor any count nor the cursor, and the two recorders
    change neither the bookmarks nor the cursor nor the id, the dataset
    and the number of questions. *)
Theorem operations_keep_apart :
  (∀ s row_idx w s' w',
     toggle_bookmark json_dumps s row_idx w = Ok (s', w') →
     s_answers s' = s_answers s ∧ s_answered_count s' = s_answered_count s ∧
     s_correct_count s' = s_correct_count s ∧
     s_incorrect_count s' = s_incorrect_count s ∧
     s_current_row s' = s_current_row s) ∧
  (∀ s row_idx q ua ca ic qo w s' w',
     record_answer json_dumps s row_idx q ua ca ic qo w = Ok (s', w') →
     s_bookmarks s' = s_bookmarks s ∧ s_current_row s' = s_current_row s ∧
     s_id s' = s_id s ∧ s_dataset s' = s_dataset s ∧
     s_split_subset s' = s_split_subset s ∧
     s_total_questions s' = s_total_questions s) ∧
  (∀ s row_idx q ua ca ic qo was prev w s' w',
     record_answer_allow_change json_dumps s row_idx q ua ca ic qo was prev w
     = Ok (s', w') →
     s_bookmarks s' = s_bookmarks s ∧ s_current_row s' = s_current_row s ∧
     s_id s' = s_id s ∧ s_dataset s' = s_dataset s ∧
     s_split_subset s' = s_split_subset s ∧
     s_total_questions s' = s_total_questions s).
Proof.
  split_and!.
  - intros s row_idx w s' w'. run_ops.
    destruct (s_bookmarks s) as [l|]; simpl; [|done].
    case_decide; intros [= <- <-]; by split_and!.
  - intros s row_idx q ua ca ic qo w s' w'. run_ops.
    destruct (s_answers s) as [answers|]; simpl; [|done].
    case_decide; [|by intros [= <- <-]; split_and!].
    destruct ic; simpl;
      [destruct (s_correct_count s)|destruct (s_incorrect_count s)]; simpl;
      try done; intros [= <- <-]; by split_and!.
  - intros s row_idx q ua ca ic qo was prev w s' w'.
    destruct s as [id created updated dataset split total n c i answers bm row].
    destruct answers as [answers|], n as [n|], c as [c|], i as [i|],
      was, prev, ic; run_ops; intros [= <- <-]; by split_and!.
Qed.

(** X8.  On a bookmark list without duplicates, [toggle_bookmark] flips
    what [is_row_bookmarked] tells of the row, and changes it for no
    other row. *)
Theorem toggle_bookmark_flips s (l : list Z) row_idx w :
  s_bookmarks s = Some l → NoDup l →
  ∃ s' w',
    toggle_bookmark json_dumps s row_idx w = Ok (s', w') ∧
    is_row_bookmarked s' row_idx = Ok (negb (bool_decide (row_idx ∈ l))) ∧
    is_row_bookmarked s row_idx = Ok (bool_decide (row_idx ∈ l)) ∧
    ∀ other, other ≠ row_idx →
      is_row_bookmarked s' other = is_row_bookmarked s other.
Proof.
  intros Hbm Hnd.
  destruct (toggle_bookmark_run json_dumps s l row_idx w Hbm)
    as (s' & w' & Hrun & Hbm').
  exists s', w'. unfold is_row_bookmarked. rewrite Hbm, Hbm'.
  split_and!; [done| |done|].
  - f_equal. case_decide as Hin.
    + rewrite (bool_decide_eq_true_2 _ Hin). simpl.
      apply bool_decide_eq_false_2. by apply list_remove_NoDup.
    + rewrite (bool_decide_eq_false_2 _ Hin). simpl.
      apply bool_decide_eq_true_2, elem_of_app. right.
      by apply list_elem_of_singleton.
  - intros other Hne. f_equal. apply bool_decide_ext. case_decide.
    + by apply elem_of_list_remove_ne.
    + rewrite elem_of_app, list_elem_of_singleton. split; [by intros [?|?]|by left].
Qed.

End Frames.

Lemma operations_keep_apart_witness :
  let r := toggle_bookmark no_text (session_of run_row0) 4 (world_of run_row0) in
  r = Ok (session_of r, world_of r) ∧
  s_answers (session_of r) = s_answers (session_of run_row0) ∧
  s_correct_count (session_of r) = s_correct_count (session_of run_row0).
Proof.
  intros r.
  assert (r = Ok (session_of r, world_of r)) as Hrun by by vm_compute.
  split; [exact Hrun|].
  destruct (proj1 (operations_keep_apart no_text) _ _ _ _ _ Hrun)
    as (Hans & _ & Hc & _).
  split; [exact Hans|exact Hc].
Defined.

Lemma toggle_bookmark_flips_witness :
  s_bookmarks (session_with ∅ [3; 5]) = Some [3; 5] ∧ NoDup [3; 5] ∧
  ∃ s' w',
    toggle_bookmark no_text (session_with ∅ [3; 5]) 3 (world0 []) = Ok (s', w') ∧
    is_row_bookmarked s' 3 = Ok false.
Proof.
  assert (NoDup [3; 5]) as Hnd by (by apply (bool_decide_unpack _)).
  split; [reflexivity|]. split; [exact Hnd|].
  destruct (toggle_bookmark_flips no_text (session_with ∅ [3; 5]) [3; 5] 3
              (world0 []) eq_refl Hnd) as (s' & w' & Hrun & Hflip & _).
  exists s', w'. split; [exact Hrun|exact Hflip].
Defined.

(** ** The live session file *)

Lemma dir_read_remove_eq (name : string) (dir : list (string * string)) :
  dir_read name (dir_remove name dir) = None.
Proof.
  unfold dir_remove. induction dir as [|[n data] dir IH]; simpl; [done|].
  rewrite filter_cons. simpl. case_decide as Hn; simpl; [|done].
  by rewrite decide_False.
Qed.

Lemma dir_read_remove_ne (name name' : string) (dir : list (string * string)) :
  name' ≠ name → dir_read name' (dir_remove name dir) = dir_read name' dir.
Proof.
  intros Hne. unfold dir_remove.
  induction dir as [|[n data] dir IH]; simpl; [done|].
  rewrite filter_cons. simpl. case_decide as Hn; simpl.
  - case_decide; [done|apply IH].
  - subst n. by rewrite decide_False.
Qed.

Lemma dir_remove_names_glob (name : string) (dir : list (string * string)) :
  glob_session name = false →
  filter (λ n, glob_session n = true) (dir_remove name dir).*1
  = filter (λ n, glob_session n = true) dir.*1.
Proof.
  intros Hglob. unfold dir_remove.
  induction dir as [|[n data] dir IH]; [done|].
  rewrite (filter_cons (λ e : string * string, e.1 ≠ name)), (fmap_cons fst).
  cbn [fst]. case_decide as Hn.
  - rewrite fmap_cons, !filter_cons. cbn [fst]. by rewrite IH.
  - subst n. rewrite (filter_cons_False _ name); [done|]. by rewrite Hglob.
Qed.

Section LiveFile.

Context (json_dumps : Session → string) (json_loads : string → option Session).

Implicit Types (s : Session) (w : World).

Lemma load_current_session_dumped s w :
  dir_read CURRENT_SESSION_FILE (w_dir w) = Some (json_dumps s) →
  utf8_valid (json_dumps s) = true → json_loads (json_dumps s) = Some s →
  load_current_session json_loads w = Ok (Some s, w).
Proof.
  intros Hread Hutf Hjson. apply load_current_session_loads. by eexists.
Qed.

Lemma record_answer_allow_change_persists s row_idx q ua ca ic qo was prev w s' w' :
  record_answer_allow_change json_dumps s row_idx q ua ca ic qo was prev w
  = Ok (s', w') →
  dir_read CURRENT_SESSION_FILE (w_dir w') = Some (json_dumps s').
Proof.
  destruct s as [id created updated dataset split total n c i answers bm row].
  destruct answers as [answers|], n as [n|], c as [c|], i as [i|],
    was, prev, ic; run_ops; intros [= <- <-]; simpl; apply dir_read_write_eq.
Qed.

Lemma toggle_bookmark_persists s row_idx w s' w' :
  toggle_bookmark json_dumps s row_idx w = Ok (s', w') →
  dir_read CURRENT_SESSION_FILE (w_dir w') = Some (json_dumps s').
Proof.
  run_ops. destruct (s_bookmarks s) as [l|]; simpl; [|done].
  case_decide; intros [= <- <-]; simpl; apply dir_read_write_eq.
Qed.

(** X9.  What [save_current_session] writes, [load_current_session]
    reads back: when the JSON library reads the saved session back from
    its dump, a load right after the save returns the session as saved,
    which is the argument with [updated_at] set to the reading of the
    clock. *)
Theorem save_then_load s w :
  let s' := set_updated_at (isoformat (w_clock w (w_tick w))) s in
  utf8_valid (json_dumps s') = true → json_loads (json_dumps s') = Some s' →
  ∃ w',
    save_current_session json_dumps s w = Ok (s', w') ∧
    load_current_session json_loads w' = Ok (Some s', w').
Proof.
  intros s' Hutf Hjson. eexists. split; [apply save_current_session_run|].
  apply (load_current_session_dumped s'); [|done|done].
  simpl. apply dir_read_write_eq.
Qed.

(** X10.  Every call of [record_answer_allow_change] and of
    [toggle_bookmark] that returns has persisted what it returns: when
    the JSON library reads the returned session back from its dump, a
    load right after the call returns that session. *)
Theorem mutation_then_load :
  (∀ s row_idx q ua ca ic qo was prev w s' w',
     record_answer_allow_change json_dumps s row_idx q ua ca ic qo was prev w
     = Ok (s', w') →
     utf8_valid (json_dumps s') = true → json_loads (json_dumps s') = Some s' →
     load_current_session json_loads w' = Ok (Some s', w')) ∧
  (∀ s row_idx w s' w',
     toggle_bookmark json_dumps s row_idx w = Ok (s', w') →
     utf8_valid (json_dumps s') = true → json_loads (json_dumps s') = Some s' →
     load_current_session json_loads w' = Ok (Some s', w')).
Proof.
  split.
  - intros s row_idx q ua ca ic qo was prev w s' w' Hrun Hutf Hjson.
    apply (load_current_session_dumped s'); [|done|done].
    by eapply record_answer_allow_change_persists.
  - intros s row_idx w s' w' Hrun Hutf Hjson.
    apply (load_current_session_dumped s'); [|done|done].
    by eapply toggle_bookmark_persists.
Qed.

(** X11.  After [delete_current_session] there is no live session:
    the call does not raise, also when the file is missing,
    [load_current_session] then returns [None], and every other file of
    the directory reads as before. *)
Theorem delete_then_load w :
  ∃ w',
    delete_current_session w = Ok (tt, w') ∧
    load_current_session json_loads w' = Ok (None, w') ∧
    ∀ name, name ≠ CURRENT_SESSION_FILE →
      dir_read name (w_dir w') = dir_read name (w_dir w).
Proof.
  unfold delete_current_session, file_exists, unlink, bind, ret.
  destruct (dir_read CURRENT_SESSION_FILE (w_dir w)) as [bytes|] eqn:Hread.
  - eexists. rewrite Hread. split_and!; [reflexivity| |].
    + apply load_current_session_missing. simpl. apply dir_read_remove_eq.
    + intros name Hne. simpl. by apply dir_read_remove_ne.
  - exists w. split_and!; [done| |done].
    by apply load_current_session_missing.
Qed.

Lemma partial_match_ext q (fps : list string) w1 w2 :
  (∀ n, n ∈ fps → dir_read n (w_dir w1) = dir_read n (w_dir w2)) →
  value_of (partial_match json_loads q fps w1)
  = value_of (partial_match json_loads q fps w2).
Proof.
  induction fps as [|fp fps IH]; intros Hsame; simpl; [done|].
  assert (value_of (partial_match json_loads q fps w1)
          = value_of (partial_match json_loads q fps w2)) as Hrest
    by (apply IH; intros n Hn; apply Hsame; by right).
  destruct (is_substring q (stem fp)); [|done].
  unfold try_except, bind, ret, json_load_file, read_text.
  rewrite (Hsame fp) by by left.
  destruct (dir_read fp (w_dir w2)) as [bytes|]; simpl; [|done].
  destruct (utf8_valid bytes); simpl; [|done].
  by destruct (json_loads bytes).
Qed.

Lemma load_session_by_id_ext q w1 w2 :
  (∀ n, n ≠ CURRENT_SESSION_FILE →
        dir_read n (w_dir w1) = dir_read n (w_dir w2)) →
  filter (λ n, glob_session n = true) (w_dir w1).*1
  = filter (λ n, glob_session n = true) (w_dir w2).*1 →
  value_of (load_session_by_id json_loads q w1)
  = value_of (load_session_by_id json_loads q w2).
Proof.
  intros Hsame Hglob.
  assert (dir_read (archive_file q) (w_dir w1) = dir_read (archive_file q) (w_dir w2))
    as Hexact by by apply Hsame.
  destruct (dir_read (archive_file q) (w_dir w2)) as [bytes|] eqn:Hq.
  - unfold archive_file in *.
    unfold load_session_by_id, bind, ret, ensure_sessions_dir, file_exists,
      try_except, json_load_file, read_text.
    simpl. rewrite Hexact, Hq. simpl. rewrite ?Hexact, ?Hq.
    destruct (utf8_valid bytes); simpl; [|done].
    by destruct (json_loads bytes).
  - rewrite !load_session_by_id_partial by done.
    rewrite Hglob. apply partial_match_ext.
    intros n [Hn _]%list_elem_of_filter. apply Hsame. by intros ->.
Qed.

(** X12.  The live session file and the archives are apart: neither
    [save_current_session] nor [delete_current_session] changes what
    [load_session_by_id] returns for any query. *)
Theorem live_file_apart_from_archives q s w :
  (∃ s' w',
     save_current_session json_dumps s w = Ok (s', w') ∧
     value_of (load_session_by_id json_loads q w')
     = value_of (load_session_by_id json_loads q w)) ∧
  (∃ w',
     delete_current_session w = Ok (tt, w') ∧
     value_of (load_session_by_id json_loads q w')
     = value_of (load_session_by_id json_loads q w)).
Proof.
  split.
  - eexists _, _. split; [apply save_current_session_run|].
    apply load_session_by_id_ext; simpl.
    + intros n Hn. by apply dir_read_write_ne.
    + by apply dir_write_names_glob.
  - unfold delete_current_session, file_exists, unlink, bind, ret.
    destruct (dir_read CURRENT_SESSION_FILE (w_dir w)) as [bytes|] eqn:Hread.
    + eexists. rewrite Hread. split; [reflexivity|].
      apply load_session_by_id_ext; simpl.
      * intros n Hn. by apply dir_read_remove_ne.
      * by apply dir_remove_names_glob.
    + by exists w.
Qed.

End LiveFile.

Lemma save_then_load_witness :
  let s' := set_updated_at (isoformat (w_clock (world_of run_created)
                                         (w_tick (world_of run_created))))
              (session_of run_created) in
  utf8_valid (dumps_braces s') = true ∧
  loads_as s' (dumps_braces s') = Some s' ∧
  ∃ w',
    save_current_session dumps_braces (session_of run_created) (world_of run_created)
    = Ok (s', w') ∧
    load_current_session (loads_as s') w' = Ok (Some s', w').
Proof.
  intros s'.
  assert (utf8_valid (dumps_braces s') = true) as Hutf by reflexivity.
  assert (loads_as s' (dumps_braces s') = Some s') as Hjson by reflexivity.
  split; [exact Hutf|]. split; [exact Hjson|].
  exact (save_then_load dumps_braces (loads_as s') (session_of run_created)
           (world_of run_created) Hutf Hjson).
Defined.

Lemma mutation_then_load_witness :
  let r := toggle_bookmark dumps_braces (session_of run_created) 2
             (world_of run_created) in
  r = Ok (session_of r, world_of r) ∧
  utf8_valid (dumps_braces (session_of r)) = true ∧
  loads_as (session_of r) (dumps_braces (session_of r)) = Some (session_of r) ∧
  load_current_session (loads_as (session_of r)) (world_of r)
  = Ok (Some (session_of r), world_of r).
Proof.
  intros r.
  assert (r = Ok (session_of r, world_of r)) as Hrun by by vm_compute.
  assert (utf8_valid (dumps_braces (session_of r)) = true) as Hutf by reflexivity.
  assert (loads_as (session_of r) (dumps_braces (session_of r))
          = Some (session_of r)) as Hjson by reflexivity.
  split; [exact Hrun|]. split; [exact Hutf|]. split; [exact Hjson|].
  exact (proj2 (mutation_then_load dumps_braces (loads_as (session_of r)))
           _ _ _ _ _ Hrun Hutf Hjson).
Defined.

(** ** The answered rows *)


Lemma int_keys_canonical (keys : list string) (rows : list Z) :
  (∀ k, k ∈ keys → ∃ i, k = str i) →
  int_keys keys = Ok rows → keys = str <$> rows.
Proof.
  revert rows. induction keys as [|k keys IH]; simpl; intros rows Hcanon.
  - by intros [= <-].
  - destruct (Hcanon k) as [i ->]; [by left|]. rewrite py_int_str.
    destruct (int_keys keys) as [rest|] eqn:Hrest; simpl; [|done].
    intros [= <-]. rewrite fmap_cons. f_equal.
    apply IH; [|done]. intros k' Hk'. apply Hcanon. by right.
Qed.

Lemma StronglySorted_le_lt (l : list Z) :
  StronglySorted Z.le l → NoDup l → StronglySorted Z.lt l.
Proof.
  induction 1 as [|x l Hsorted IH Hall]; intros Hnd; [constructor|].
  apply NoDup_cons in Hnd as [Hx Hnd]. constructor; [by apply IH|].
  rewrite Forall_forall in *. intros y Hy.
  specialize (Hall y Hy). assert (x ≠ y) by by intros ->. lia.
Qed.


Section AnsweredRows.

Context (json_dumps : Session → string).

(** X14.  On every session that the recorders produce from a new
    session, [get_answered_rows] returns the rows that [is_row_answered]
    tells answered, each once, in strictly ascending order, and as many
    as [answered_count] says. *)
Theorem get_answered_rows_reachable flags_ok (s : Session) :
  reachable json_dumps flags_ok s →
  ∃ rows,
    get_answered_rows (Some s) = Ok rows ∧
    StronglySorted Z.lt rows ∧
    (∀ i, i ∈ rows ↔ is_row_answered s i = Ok true) ∧
    s_answered_count s = Some (Z.of_nat (length rows)).
Proof.
  intros Hreach.
  destruct (reachable_canonical _ _ _ Hreach) as (answers & Hans & Hcanon).
  destruct (reachable_bounded _ _ _ Hreach)
    as (answers' & c & i & Hans' & Hn & _).
  rewrite Hans in Hans'. injection Hans' as <-.
  pose proof (canonical_numeral_keys s answers Hans Hcanon) as Hnum.
  destruct (get_answered_rows_spec (Some s) Hnum) as (rows & Hrows & Hsorted & Hin).
  exists rows. split; [done|].
  unfold get_answered_rows in Hrows. rewrite Hans in Hrows.
  destruct (int_keys (map_to_list answers).*1) as [ints|] eqn:Hints; [|done].
  simpl in Hrows. injection Hrows as <-.
  assert ((map_to_list answers).*1 = str <$> ints) as Hkeys.
  { apply int_keys_canonical; [|done]. intros k Hk%elem_of_keys. by apply Hcanon. }
  assert (NoDup ints) as Hnd.
  { apply (NoDup_fmap_1 str). rewrite <- Hkeys. apply NoDup_fst_map_to_list. }
  split_and!.
  - apply StronglySorted_le_lt; [done|].
    unfold sorted. by rewrite merge_sort_Permutation.
  - intros j. rewrite Hin. by apply (answered_index_canonical s answers).
  - rewrite Hn. f_equal. unfold len, sorted.
    rewrite merge_sort_Permutation.
    rewrite <- (length_fmap str ints), <- Hkeys, length_fmap.
    by rewrite length_map_to_list.
Qed.

End AnsweredRows.


Lemma get_answered_rows_reachable_witness :
  reachable no_text flags_accurate (session_of run_row1_changed) ∧
  ∃ rows,
    get_answered_rows (Some (session_of run_row1_changed)) = Ok rows ∧
    StronglySorted Z.lt rows ∧
    (∀ i, i ∈ rows ↔ is_row_answered (session_of run_row1_changed) i = Ok true) ∧
    s_answered_count (session_of run_row1_changed) = Some (Z.of_nat (length rows)).
Proof.
  split; [exact run_row1_changed_reachable|].
  exact (get_answered_rows_reachable no_text flags_accurate _
           run_row1_changed_reachable).
Defined.

(** ** Searching from a new session, and finding what there is *)

(** X15.  On a new session nothing is answered or bookmarked: for
    [total_rows > 0] the search for an unanswered row returns the
    neighbour [(current + direction) mod total_rows], the search for an
    answered row returns [None], and no row is bookmarked. *)
Theorem new_session_navigation
    (dataset split_subset : string) (w : World) (s : Session) (w' : World)
    (current_idx total_rows direction : Z) :
  create_empty_session dataset split_subset w = Ok (s, w') → 0 < total_rows →
  get_next_unanswered_row s current_idx total_rows direction
  = Ok ((current_idx + direction) mod total_rows) ∧
  get_next_answered_row (Some s) current_idx direction = Ok None ∧
  ∀ i, is_row_bookmarked s i = Ok false.
Proof.
  intros Hcreate Hpos. run_ops. injection Hcreate as <- <-. split_and!.
  - unfold get_next_unanswered_row.
    destruct (Z.to_nat total_rows) as [|n] eqn:Hn; [lia|]. simpl.
    rewrite bool_decide_eq_false_2; [done|].
    rewrite dom_empty_L. apply not_elem_of_empty.
  - done.
  - intros i. by unfold is_row_bookmarked.
Qed.

Lemma visited_covers (current_idx total_rows direction j : Z) :
  0 < total_rows → direction = 1 ∨ direction = -1 → 0 ≤ j < total_rows →
  ∃ k, 1 ≤ k ≤ total_rows ∧ visited current_idx total_rows direction k = j.
Proof.
  intros Hpos Hdir Hj.
  assert (∀ k q, current_idx + k * direction = j + q * total_rows →
                 visited current_idx total_rows direction k = j) as Hhit.
  { intros k q Heq. unfold visited. rewrite Heq, Z_mod_plus_full.
    by apply Z.mod_small. }
  destruct Hdir as [-> | ->].
  - pose proof (Z.div_mod (j - current_idx) total_rows ltac:(lia)) as Hdiv.
    pose proof (Z.mod_pos_bound (j - current_idx) total_rows Hpos) as Hbound.
    destruct (decide ((j - current_idx) mod total_rows = 0)) as [Hzero|Hnz].
    + exists total_rows. split; [lia|].
      apply (Hhit _ (1 - (j - current_idx) / total_rows)). lia.
    + exists ((j - current_idx) mod total_rows). split; [lia|].
      apply (Hhit _ (- ((j - current_idx) / total_rows))). lia.
  - pose proof (Z.div_mod (current_idx - j) total_rows ltac:(lia)) as Hdiv.
    pose proof (Z.mod_pos_bound (current_idx - j) total_rows Hpos) as Hbound.
    destruct (decide ((current_idx - j) mod total_rows = 0)) as [Hzero|Hnz].
    + exists total_rows. split; [lia|].
      apply (Hhit _ ((current_idx - j) / total_rows - 1)). lia.
    + exists ((current_idx - j) mod total_rows). split; [lia|].
      apply (Hhit _ ((current_idx - j) / total_rows)). lia.
Qed.

(** X16.  With direction +1 or -1 the search misses nothing: when some
    row of [[0, total_rows)] has no entry, [get_next_unanswered_row]
    returns a row of that range without an entry, from every current
    index. *)
Theorem get_next_unanswered_row_finds
    (s : Session) (answers : gmap string AnswerRecord)
    (current_idx total_rows direction : Z) :
  s_answers s = Some answers → 0 < total_rows →
  direction = 1 ∨ direction = -1 →
  (∃ j, 0 ≤ j < total_rows ∧ ¬ answered answers j) →
  ∃ r, get_next_unanswered_row s current_idx total_rows direction = Ok r ∧
       0 ≤ r < total_rows ∧ is_row_answered s r = Ok false.
Proof.
  intros Hans Hpos Hdir (j & Hj & Hfree).
  unfold get_next_unanswered_row.
  destruct (unanswered_loop_spec s answers Hans current_idx total_rows direction
              (Z.to_nat total_rows) current_idx)
    as [(k & Hk & Hnot & _ & Hrun)|[Hall _]].
  - eexists. split; [exact Hrun|]. split.
    + apply Z.mod_pos_bound. lia.
    + rewrite (is_row_answered_decides s answers Hans).
      by rewrite bool_decide_eq_false_2.
  - destruct (visited_covers current_idx total_rows direction j Hpos Hdir Hj)
      as (k & Hk & Hvisit).
    destruct Hfree. rewrite <- Hvisit. apply Hall. lia.
Qed.

Lemma new_session_navigation_witness :
  run_created = Ok (session_of run_created, world_of run_created) ∧ 0 < 5 ∧
  get_next_unanswered_row (session_of run_created) 4 5 1 = Ok ((4 + 1) mod 5) ∧
  get_next_answered_row (Some (session_of run_created)) 4 1 = Ok None.
Proof.
  assert (0 < 5) as Hpos by lia.
  assert (run_created = Ok (session_of run_created, world_of run_created))
    as Hrun by reflexivity.
  split; [exact Hrun|]. split; [exact Hpos|].
  destruct (new_session_navigation "d" "s" (world0 []) _ _ 4 5 1 Hrun Hpos)
    as (Hnext & Hjump & _).
  split; [exact Hnext|exact Hjump].
Defined.

Lemma get_next_unanswered_row_finds_witness :
  s_answers (session_rows [0; 1; 3]) = Some (answers_rows [0; 1; 3]) ∧ 0 < 4 ∧
  (∃ j, 0 ≤ j < 4 ∧ ¬ answered (answers_rows [0; 1; 3]) j) ∧
  ∃ r, get_next_unanswered_row (session_rows [0; 1; 3]) 3 4 (-1) = Ok r ∧
       0 ≤ r < 4 ∧ is_row_answered (session_rows [0; 1; 3]) r = Ok false.
Proof.
  assert (0 < 4) as Hpos by lia.
  assert (∃ j, 0 ≤ j < 4 ∧ ¬ answered (answers_rows [0; 1; 3]) j) as Hfree.
  { exists 2. split; [lia|]. unfold answered. by apply (bool_decide_unpack _). }
  split; [reflexivity|]. split; [exact Hpos|]. split; [exact Hfree|].
  exact (get_next_unanswered_row_finds (session_rows [0; 1; 3]) _ 3 4 (-1)
           eq_refl Hpos (or_intror eq_refl) Hfree).
Defined.

(** ** Recording through the viewer *)

Section Viewer.

Context (json_dumps : Session → string).

Lemma check_answer_flags_accurate (s : Session) (answers : gmap string AnswerRecord)
    (row_idx : Z) :
  s_answers s = Some answers →
  ∃ was prev,
    check_answer_flags s row_idx = Ok (was, prev) ∧
    flags_accurate s row_idx was prev.
Proof.
  intros Hans. unfold check_answer_flags, flags_accurate, get_default.
  rewrite Hans. simpl.
  destruct (answers !! str row_idx) as [a|] eqn:Hrow.
  - rewrite bool_decide_eq_true_2 by (apply elem_of_dom; by eexists).
    eexists _, _. split; [reflexivity|]. exists answers. by rewrite Hrow.
  - rewrite bool_decide_eq_false_2 by by apply not_elem_of_dom.
    eexists _, _. split; [reflexivity|]. exists answers. by rewrite Hrow.
Qed.

(** X17.  The flags that [check_answer_and_save] computes describe the
    session, so its recording step keeps the counts exact: on a session
    in which each count is the number of entries it stands for, the step
    does not raise and returns such a session again, for a first answer
    to a row as for a changed one. *)
Theorem check_answer_record_exact
    (s : Session) (row_idx : Z) (q ul ca : string) (ic : bool) (qo : string)
    (w : World) :
  counts_exact s →
  ∃ was prev s' w',
    check_answer_flags s row_idx = Ok (was, prev) ∧
    flags_accurate s row_idx was prev ∧
    check_answer_record json_dumps s row_idx q ul ca ic qo w = Ok (s', w') ∧
    counts_exact s'.
Proof.
  intros Hexact. pose proof Hexact as (answers & Hans & _).
  destruct (check_answer_flags_accurate s answers row_idx Hans)
    as (was & prev & Hflags & Haccurate).
  destruct (record_answer_allow_change_result json_dumps s row_idx q ul ca ic qo
              was prev w) as (s' & w' & Hrun & _).
  exists was, prev, s', w'. unfold check_answer_record. rewrite Hflags.
  split_and!; [done|done|done|].
  by eapply record_answer_allow_change_exact.
Qed.

End Viewer.

Lemma check_answer_record_exact_witness :
  counts_exact (session_of run_row1) ∧
  ∃ was prev s' w',
    check_answer_flags (session_of run_row1) 1 = Ok (was, prev) ∧
    flags_accurate (session_of run_row1) 1 was prev ∧
    check_answer_record no_text (session_of run_row1) 1 "q1" "C" "C" true
      EmptyString (world_of run_row1) = Ok (s', w') ∧
    counts_exact s'.
Proof.
  assert (counts_exact (session_of run_row1)) as Hexact.
  { eexists. split_and!; [reflexivity|by vm_compute..]. }
  split; [exact Hexact|].
  exact (check_answer_record_exact no_text (session_of run_row1) 1 "q1" "C" "C"
           true EmptyString (world_of run_row1) Hexact).
Defined.

(** The example of the specification through the viewer's step: row 1,
    answered wrongly, is changed to a correct answer. *)
Example check_answer_record_correction :
  let s' := session_of (check_answer_record no_text (session_of run_row1) 1 "q1"
                          "C" "C" true EmptyString (world_of run_row1)) in
  check_answer_flags (session_of run_row1) 1 = Ok (true, false) ∧
  s_answered_count s' = Some 2 ∧ s_correct_count s' = Some 2 ∧
  s_incorrect_count s' = Some 0.
Proof. by vm_compute. Qed.

(** ** Archives *)

Lemma has_char_app (c : ascii) (a b : string) :
  has_char c (a +:+ b) = has_char c a || has_char c b.
Proof.
  induction a as [|x a IH]; [done|].
  rewrite app_cons_string. simpl. rewrite IH. by rewrite orb_assoc.
Qed.

Lemma has_char_archive_file (c : ascii) (id : string) :
  has_char c "session_.json" = false →
  has_char c (archive_file id) = has_char c id.
Proof.
  unfold archive_file. rewrite !has_char_app. intros Hc.
  change "session_.json" with ("session_" +:+ ".json") in Hc.
  rewrite has_char_app in Hc. apply orb_false_iff in Hc as [-> ->].
  by rewrite orb_false_r.
Qed.

Lemma dir_write_names_present (name data : string) (dir : list (string * string)) :
  is_Some (dir_read name dir) → (dir_write name data dir).*1 = dir.*1.
Proof.
  induction dir as [|[n old] dir IH]; simpl; [by intros [? ?]|].
  case_decide as Hn; [by subst n|].
  intros Hsome. rewrite !fmap_cons. f_equal. by apply IH.
Qed.

Section Archives.

Context (json_dumps_archived : ArchivedSession → string).
Context (json_loads : string → option Session).

Lemma write_named_archive (id data : string) (w : World) :
  has_char (ascii_of_nat 0) id = false → has_char "/" id = false →
  write_named (archive_file id) data w = write_file (archive_file id) data w.
Proof.
  intros Hnul Hslash. unfold write_named.
  rewrite !has_char_archive_file by done. by rewrite Hnul, Hslash.
Qed.

Lemma archive_session_run (s : Session) (id : string) (w : World) :
  s_id s = Some id →
  has_char (ascii_of_nat 0) id = false → has_char "/" id = false →
  let a := mkArchived s (isoformat (w_clock w (w_tick w))) in
  archive_session json_dumps_archived s w
  = Ok ((a, "sessions/" +:+ archive_file id),
        mkWorld (w_clock w) (S (w_tick w))
          (dir_write (archive_file id) (json_dumps_archived a) (w_dir w))).
Proof.
  intros Hid Hnul Hslash a.
  unfold archive_session, ensure_sessions_dir, datetime_now, getitem, bind, ret.
  rewrite Hid. cbv beta iota zeta.
  change ("session_" +:+ id +:+ ".json") with (archive_file id).
  by rewrite write_named_archive.
Qed.


(** X19.  [archive_session] writes one file and no other: every file
    with another name reads as before, so the live session file does, and
    [load_current_session] returns what it returned before. *)
Theorem archive_session_one_file (s : Session) (id : string) (w : World)
    (r : ArchivedSession * string) (w' : World) :
  s_id s = Some id →
  archive_session json_dumps_archived s w = Ok (r, w') →
  (∀ name, name ≠ archive_file id →
           dir_read name (w_dir w') = dir_read name (w_dir w)) ∧
  value_of (load_current_session json_loads w')
  = value_of (load_current_session json_loads w).
Proof.
  intros Hid Hrun.
  assert (∀ name, name ≠ archive_file id →
                  dir_read name (w_dir w') = dir_read name (w_dir w)) as Hsame.
  { revert Hrun.
    unfold archive_session, ensure_sessions_dir, datetime_now, getitem, bind, ret.
    rewrite Hid. cbv beta iota zeta.
    change ("session_" +:+ id +:+ ".json") with (archive_file id).
    unfold write_named, throw.
    destruct (has_char (ascii_of_nat 0) (archive_file id)); [done|].
    destruct (has_char "/" (archive_file id)); [done|].
    unfold write_file. intros [= <- <-] name Hne. by apply dir_read_write_ne. }
  split; [done|].
  unfold load_current_session, file_exists, try_except, json_load_file,
    read_text, ensure_sessions_dir, bind, ret. simpl.
  rewrite (Hsame CURRENT_SESSION_FILE) by done.
  destruct (dir_read CURRENT_SESSION_FILE (w_dir w)) as [bytes|] eqn:Hlive;
    [|done].
  rewrite (Hsame CURRENT_SESSION_FILE), Hlive by done. simpl.
  destruct (utf8_valid bytes); simpl; [|done].
  by destruct (json_loads bytes).
Qed.

(** X20.  Archiving under an id that has an archive overwrites it: the
    directory keeps its names, also in their order, and the file holds
    the new dump. *)
Theorem archive_session_overwrites (s : Session) (id : string) (w : World) :
  s_id s = Some id →
  has_char (ascii_of_nat 0) id = false → has_char "/" id = false →
  is_Some (dir_read (archive_file id) (w_dir w)) →
  ∃ r w',
    archive_session json_dumps_archived s w = Ok (r, w') ∧
    (w_dir w').*1 = (w_dir w).*1 ∧
    dir_read (archive_file id) (w_dir w') = Some (json_dumps_archived r.1).
Proof.
  intros Hid Hnul Hslash Hold. eexists _, _.
  split; [by apply archive_session_run|]. simpl. split.
  - by apply dir_write_names_present.
  - apply dir_read_write_eq.
Qed.

End Archives.


Lemma archive_session_one_file_witness :
  let s := session_of run_row0 in
  let r := archive_session dumps_archived_braces s (world0 dir_archived) in
  s_id s = Some "20260214_120040" ∧
  (∃ a w', r = Ok (a, w') ∧
           dir_read CURRENT_SESSION_FILE (w_dir w')
           = dir_read CURRENT_SESSION_FILE dir_archived).
Proof.
  intros s r. split; [reflexivity|].
  assert (∃ a w', r = Ok (a, w')) as (a & w' & Hrun)
    by (subst r s; rewrite (archive_session_run _ _ "20260214_120040")
          by reflexivity; by eexists _, _).
  exists a, w'. split; [exact Hrun|].
  exact (proj1 (archive_session_one_file dumps_archived_braces json_loads_braces
                  s "20260214_120040" (world0 dir_archived) a w' eq_refl Hrun)
           CURRENT_SESSION_FILE ltac:(discriminate)).
Defined.

Lemma archive_session_overwrites_witness :
  let s := session_of run_row0 in
  s_id s = Some "20260214_120040" ∧
  has_char (ascii_of_nat 0) "20260214_120040" = false ∧
  has_char "/" "20260214_120040" = false ∧
  is_Some (dir_read (archive_file "20260214_120040") (w_dir (world0 dir_archived))) ∧
  ∃ r w',
    archive_session dumps_archived_braces s (world0 dir_archived) = Ok (r, w') ∧
    (w_dir w').*1 = dir_archived.*1 ∧
    dir_read (archive_file "20260214_120040") (w_dir w')
    = Some (dumps_archived_braces r.1).
Proof.
  intros s.
  assert (is_Some (dir_read (archive_file "20260214_120040")
                     (w_dir (world0 dir_archived)))) as Hold by (by eexists).
  split; [reflexivity|]. split; [reflexivity|]. split; [reflexivity|].
  split; [exact Hold|].
  exact (archive_session_overwrites dumps_archived_braces s "20260214_120040"
           (world0 dir_archived) eq_refl eq_refl eq_refl Hold).
Defined.

(** An id with a slash names no file of the directory: the archive is
    refused and nothing is written. *)
Example archive_session_slash :
  let s := mkSession (Some "a/b") None None None None None None None None None
             None None in
  archive_session dumps_archived_braces s (world0 []) = Raise OSError ∧
  archive_session dumps_archived_braces empty_dict (world0 [])
  = Raise (KeyError "id").
Proof. by vm_compute. Qed.

(** ** The status indicator of a row *)

Lemma join_space_nonempty (x : string) (l : list string) :
  x ≠ EmptyString → join_space (x :: l) ≠ EmptyString.
Proof.
  intros Hx. destruct l as [|y l]; simpl; [done|].
  destruct x as [|c x]; [done|]. by rewrite app_cons_string.
Qed.

(** X21.  For a session that has its answers and its bookmarks,
    [get_row_status_indicator] returns the empty string exactly for the
    rows that are neither answered nor bookmarked; it returns the empty
    string for no session. *)
Theorem get_row_status_indicator_empty
    (s : Session) (answers : gmap string AnswerRecord) (bookmarks : list Z)
    (row_idx : Z) :
  s_answers s = Some answers → s_bookmarks s = Some bookmarks →
  get_row_status_indicator None row_idx = Ok EmptyString ∧
  ∃ text,
    get_row_status_indicator (Some s) row_idx = Ok text ∧
    (text = EmptyString ↔
     is_row_answered s row_idx = Ok false ∧
     is_row_bookmarked s row_idx = Ok false).
Proof.
  intros Hans Hbm. split; [done|].
  unfold get_row_status_indicator, is_row_answered, is_row_bookmarked.
  rewrite Hans, Hbm. simpl.
  destruct (bool_decide (str row_idx ∈ dom answers)),
    (bool_decide (row_idx ∈ bookmarks)); simpl;
    eexists; (split; [reflexivity|]).
  - split; [|by intros [[=] _]].
    intros Hempty. exfalso. revert Hempty.
    destruct (match answers !! str row_idx with
              | Some a => get_is_correct a
              | None => false
              end); by apply join_space_nonempty.
  - split; [|by intros [[=] _]].
    intros Hempty. exfalso. revert Hempty.
    destruct (match answers !! str row_idx with
              | Some a => get_is_correct a
              | None => false
              end); by apply join_space_nonempty.
  - split; [|by intros [_ [=]]]. intros Hempty. exfalso. revert Hempty.
    by apply (join_space_nonempty BOOKMARK_MARK []).
  - done.
Qed.

Lemma get_row_status_indicator_empty_witness :
  s_answers (session_with (answers_rows [0; 2]) [2; 7])
  = Some (answers_rows [0; 2]) ∧
  s_bookmarks (session_with (answers_rows [0; 2]) [2; 7]) = Some [2; 7] ∧
  get_row_status_indicator (Some (session_with (answers_rows [0; 2]) [2; 7])) 2
  = Ok (CHECK_MARK +:+ " " +:+ BOOKMARK_MARK) ∧
  get_row_status_indicator (Some (session_with (answers_rows [0; 2]) [2; 7])) 5
  = Ok EmptyString.
Proof.
  split; [reflexivity|]. split; [reflexivity|]. split; [by vm_compute|].
  destruct (proj2 (get_row_status_indicator_empty
                     (session_with (answers_rows [0; 2]) [2; 7])
                     (answers_rows [0; 2]) [2; 7] 5 eq_refl eq_refl))
    as (text & Hrun & Hempty).
  rewrite Hrun. f_equal. apply Hempty. by vm_compute.
Defined.

(** ** The list of the archives *)





Lemma dir_read_listed (name : string) (dir : list (string * string)) :
  name ∈ dir.*1 → is_Some (dir_read name dir).
Proof.
  induction dir as [|[n data] dir IH].
  - by intros ?%elem_of_nil.
  - rewrite fmap_cons. simpl. case_decide; [by eexists|].
    intros [?|?]%elem_of_cons; [done|by apply IH].
Qed.

Section ListingProperties.

Context (json_loads : string → option Session).

Lemma collect_summaries_decodable (fps : list string) (w : World) :
  (∀ fp, fp ∈ fps → ∃ bytes, dir_read fp (w_dir w) = Some bytes ∧
                             utf8_valid bytes = true) →
  collect_summaries json_loads fps w
  = Ok (omap (λ name,
                match dir_read name (w_dir w) with
                | Some bytes =>
                    if utf8_valid bytes then summarise name <$> json_loads bytes
                    else None
                | None => None
                end) fps, w).
Proof.
  induction fps as [|fp fps IH]; intros Hdec; [done|].
  destruct (Hdec fp) as (bytes & Hread & Hutf); [by left|].
  assert (∀ fp', fp' ∈ fps → ∃ bytes', dir_read fp' (w_dir w) = Some bytes' ∧
                                        utf8_valid bytes' = true) as Hrest
    by (intros fp' Hfp'; apply Hdec; by right).
  simpl. unfold json_load_file, read_text. rewrite Hread, Hutf.
  destruct (json_loads bytes) as [v|]; simpl; by rewrite (IH Hrest).
Qed.

Lemma list_archived_sessions_collect (w : World) :
  archives_decodable (w_dir w) →
  (let* _ := ensure_sessions_dir in
   let* fps := glob_sessions in
   collect_summaries json_loads fps) w
  = Ok (readable_archives json_loads (w_dir w), w).
Proof.
  intros Hdec. unfold bind, ensure_sessions_dir, glob_sessions, ret. simpl.
  apply collect_summaries_decodable.
  intros fp [Hglob Hfp%dir_read_listed]%list_elem_of_filter.
  destruct Hfp as [bytes Hread]. exists bytes. split; [done|].
  by eapply Hdec.
Qed.


(** X23.  An archive without creation date breaks the list: when every
    archive file is UTF-8, at least two of them hold JSON and one of
    these has no [created_at], [list_archived_sessions] raises
    [TypeError], for the sort compares [None] with another key. *)
Theorem list_archived_sessions_undated (w : World) (x : Summary) :
  archives_decodable (w_dir w) →
  (2 ≤ length (readable_archives json_loads (w_dir w)))%nat →
  x ∈ readable_archives json_loads (w_dir w) → sm_created_at x = None →
  list_archived_sessions json_loads w = RaisedTypeError.
Proof.
  intros Hdec Htwo Hx Hnone. unfold list_archived_sessions.
  rewrite (list_archived_sessions_collect w Hdec).
  destruct (readable_archives json_loads (w_dir w)) as [|y [|z l]] eqn:Hl;
    [simpl in Htwo; lia..|].
  unfold sort_by_created_at.
  assert (forallb (λ x, bool_decide (is_Some (sm_created_at x))) (y :: z :: l)
          = false) as ->; [|done].
  apply not_true_is_false. intros Hall.
  rewrite forallb_forall in Hall. specialize (Hall x).
  rewrite <- list_elem_of_In in Hall. specialize (Hall Hx).
  apply bool_decide_eq_true_1 in Hall. rewrite Hnone in Hall.
  by destruct Hall.
Qed.

End ListingProperties.

Lemma dir_dated_decodable : archives_decodable dir_dated.
Proof.
  intros name bytes _. unfold dir_dated. simpl.
  repeat (case_decide; [by intros [= <-]|]). done.
Qed.


(** The newer archive comes first, although it is the later one in the
    directory, and the file that is not JSON leaves no entry. *)
Example list_archived_sessions_dated :
  match list_archived_sessions (loads_table table_dated) (world0 dir_dated) with
  | Returned (l, _) => sm_filepath <$> l
  | _ => []
  end = ["sessions/session_b.json"; "sessions/session_a.json"].
Proof. by vm_compute. Qed.

Lemma list_archived_sessions_undated_witness :
  archives_decodable (w_dir (world0 dir_dated)) ∧
  (2 ≤ length (readable_archives (loads_table table_undated)
                 (w_dir (world0 dir_dated))))%nat ∧
  summarise "session_b.json" (session_dated None)
  ∈ readable_archives (loads_table table_undated) (w_dir (world0 dir_dated)) ∧
  list_archived_sessions (loads_table table_undated) (world0 dir_dated)
  = RaisedTypeError.
Proof.
  assert (2 ≤ length (readable_archives (loads_table table_undated)
                        (w_dir (world0 dir_dated))))%nat as Htwo
    by (vm_compute; lia).
  assert (summarise "session_b.json" (session_dated None)
          ∈ readable_archives (loads_table table_undated)
              (w_dir (world0 dir_dated))) as Hin.
  { vm_compute. right. left. }
  split; [exact dir_dated_decodable|]. split; [exact Htwo|]. split; [exact Hin|].
  exact (list_archived_sessions_undated (loads_table table_undated)
           (world0 dir_dated) _ dir_dated_decodable Htwo Hin eq_refl).
Defined.

Section ListingErrors.

Context (json_loads : string → option Session).

Lemma collect_summaries_undecodable (fps : list string) (w : World)
    (name bytes : string) :
  name ∈ fps → dir_read name (w_dir w) = Some bytes → utf8_valid bytes = false →
  collect_summaries json_loads fps w = Raise UnicodeDecodeError.
Proof.
  intros Hin Hread Hutf. induction fps as [|fp fps IH]; simpl.
  - by apply elem_of_nil in Hin.
  - destruct (decide (fp = name)) as [->|Hne].
    + by rewrite (json_load_file_undecodable json_loads w name bytes).
    + apply elem_of_cons in Hin as [?|Hin]; [congruence|].
      specialize (IH Hin).
      unfold json_load_file, read_text.
      destruct (dir_read fp (w_dir w)) as [data|]; simpl; [|done].
      destruct (utf8_valid data); simpl; [|done].
      destruct (json_loads data); simpl; [|done]. by rewrite IH.
Qed.

(** X24.  An archive whose bytes are not UTF-8 leaves no list at all:
    [list_archived_sessions] raises [UnicodeDecodeError], which is none
    of the errors that its loop skips, whatever the other archives are. *)
Theorem list_archived_sessions_undecodable (w : World) (name bytes : string) :
  name ∈ (w_dir w).*1 → glob_session name = true →
  dir_read name (w_dir w) = Some bytes → utf8_valid bytes = false →
  list_archived_sessions json_loads w = Raised UnicodeDecodeError.
Proof.
  intros Hin Hglob Hread Hutf. unfold list_archived_sessions.
  unfold bind, ensure_sessions_dir, glob_sessions, ret. simpl.
  rewrite (collect_summaries_undecodable _ w name bytes); [done| |done|done].
  by apply list_elem_of_filter.
Qed.

End ListingErrors.

Lemma list_archived_sessions_undecodable_witness :
  let dir := [("session_a.json", "{}");
              ("session_b.json", String (ascii_of_nat 255) EmptyString)] in
  "session_b.json" ∈ dir.*1 ∧ glob_session "session_b.json" = true ∧
  dir_read "session_b.json" dir = Some (String (ascii_of_nat 255) EmptyString) ∧
  utf8_valid (String (ascii_of_nat 255) EmptyString) = false ∧
  list_archived_sessions json_loads_braces (world0 dir) = Raised UnicodeDecodeError.
Proof.
  intros dir.
  assert ("session_b.json" ∈ dir.*1) as Hin by (right; left).
  split; [exact Hin|]. split; [reflexivity|]. split; [reflexivity|].
  split; [reflexivity|].
  exact (list_archived_sessions_undecodable json_loads_braces (world0 dir)
           "session_b.json" _ Hin eq_refl eq_refl eq_refl).
Defined.
